(** * list-api: saved-item row transform, bulk archive and mutation resolvers

    A shallow embedding of the TypeScript sources

    - [models/PocketSave]            (class [PocketSaveModel]),
    - [dataService/pocketSavesService] ([statusMap], [convert],
      [PocketSaveDataService]),
    - [resolvers/index]              ([resolvers.Mutation], [executeMutation]),
    - [resolvers/mutation]           ([upsertSavedItem], [updateSavedItemTags],
      [updateSavedItemRemoveTags]),

    followed by the properties of the specification that concern them.

    Conventions.  A string is its UTF-8 bytes.  A JavaScript [number] holding
    a row id is a [JsNumber] ([NaN] or an integer); the model is exact on the
    safe integers (below 2^53 in absolute value), where a number is its
    integer and prints in plain decimal, and the properties that depend on
    the value of a parsed or printed number assume that range.  A value that
    may be [null]/[undefined] is an [option]; an [async] function that reads
    or writes the request context is a computation in the monad [M], which
    threads the request's [World] and may end in a thrown [error]. *)

From Stdlib Require Import Ascii String.
From stdpp Require Import base option list strings pretty gmap.

Open Scope string_scope.
Open Scope Z_scope.

(** ** Data model *)

(** The string names of [keyof typeof PocketSaveStatus]. *)
Inductive StatusName := UNREAD | ARCHIVED | DELETED | HIDDEN.

#[global] Instance StatusName_eq_dec : EqDecision StatusName.
Proof. solve_decision. Defined.

(** Modelled from the spec: the numeric enum [PocketSaveStatus] of [../types]
    is not part of the sources.  The row transform's table gives
    0 -> UNREAD, 1 -> ARCHIVED, 2 -> DELETED; HIDDEN takes the next code. *)
Definition PocketSaveStatus (s : StatusName) : Z :=
  match s with
  | UNREAD => 0
  | ARCHIVED => 1
  | DELETED => 2
  | HIDDEN => 3
  end.

(** A date as the MySQL driver hands it over: the all-zero value
    ['0000-00-00 00:00:00'] or a real instant. *)
Inductive MysqlDate :=
  | ZeroDate
  | DateTime (t : Z).

#[global] Instance MysqlDate_eq_dec : EqDecision MysqlDate.
Proof. solve_decision. Defined.

(** Modelled from the spec: [mysqlDateConvert] of [dataService/utils] is not
    part of the sources.  The doc comment of [convert] and the spec agree:
    values like '0000-00-00 00:00:00' are filtered out (returning null), any
    other date is kept. *)
Definition mysqlDateConvert (d : MysqlDate) : option Z :=
  match d with
  | ZeroDate => None
  | DateTime t => Some t
  end.

Record RawListResult := mkRawListResult {
  raw_api_id : string;
  raw_api_id_updated : Z;
  raw_favorite : Z;
  raw_given_url : string;
  raw_item_id : Z;
  raw_resolved_id : Z;
  raw_status : Z;
  raw_time_added : MysqlDate;
  raw_time_favorited : MysqlDate;
  raw_time_read : MysqlDate;
  raw_time_updated : MysqlDate;
  raw_title : string;
  raw_user_id : Z;
}.

(** [ListResult]: [status] is [undefined] ([None]) when [statusMap] has no
    entry, and every date may be [null] after [mysqlDateConvert]. *)
Record ListResult := mkListResult {
  api_id : string;
  api_id_updated : Z;
  favorite : Z;
  given_url : string;
  item_id : Z;
  resolved_id : Z;
  status : option StatusName;
  time_added : option Z;
  time_favorited : option Z;
  time_read : option Z;
  time_updated : option Z;
  title : string;
  user_id : Z;
}.

Record PocketSave := mkPocketSave {
  ps_archived : bool;
  ps_archivedAt : option Z;
  ps_createdAt : option Z;
  ps_deletedAt : option Z;
  ps_favorite : bool;
  ps_favoritedAt : option Z;
  ps_givenUrl : string;
  ps_id : string;
  ps_resolvedId : string;
  ps_status : option StatusName;
  ps_title : string;
  ps_updatedAt : option Z;
}.

(** ** [dataService/pocketSavesService]: the row conversion *)

(** [statusMap]: an object literal keyed by the enum's numbers. *)
Definition statusMap : gmap Z StatusName :=
  <[PocketSaveStatus HIDDEN := HIDDEN]>
  (<[PocketSaveStatus DELETED := DELETED]>
  (<[PocketSaveStatus ARCHIVED := ARCHIVED]>
  (<[PocketSaveStatus UNREAD := UNREAD]> ∅))).

Definition convert (row : RawListResult) : ListResult :=
  {| api_id := raw_api_id row;
     api_id_updated := raw_api_id_updated row;
     favorite := raw_favorite row;
     given_url := raw_given_url row;
     item_id := raw_item_id row;
     resolved_id := raw_resolved_id row;
     status := statusMap !! raw_status row;
     time_added := mysqlDateConvert (raw_time_added row);
     time_favorited := mysqlDateConvert (raw_time_favorited row);
     time_read := mysqlDateConvert (raw_time_read row);
     time_updated := mysqlDateConvert (raw_time_updated row);
     title := raw_title row;
     user_id := raw_user_id row |}.

(** ** [models/PocketSave]: [PocketSaveModel.transformListRow] *)

(** [row.status === 'ARCHIVED'] on a possibly undefined status. *)
Definition status_is (s : StatusName) (o : option StatusName) : bool :=
  bool_decide (o = Some s).

(** [id] and [resolvedId] are [row.item_id.toString()] and
    [row.resolved_id.toString()]: the plain decimal JavaScript prints for a
    safe integer. *)
Definition transformListRow (row : ListResult) : PocketSave :=
  {| ps_archived := if status_is ARCHIVED (status row) then true else false;
     ps_archivedAt := if status_is ARCHIVED (status row) then time_read row else None;
     ps_createdAt := time_added row;
     ps_deletedAt := if status_is DELETED (status row) then time_updated row else None;
     ps_favorite := if bool_decide (favorite row = 1) then true else false;
     ps_favoritedAt := if bool_decide (favorite row = 1) then time_favorited row else None;
     ps_givenUrl := given_url row;
     ps_id := pretty (item_id row);
     ps_resolvedId := pretty (resolved_id row);
     ps_status := status row;
     ps_title := title row;
     ps_updatedAt := time_updated row |}.

(** The row transform of the spec: raw storage row to canonical entity. *)
Definition rowTransform (row : RawListResult) : PocketSave :=
  transformListRow (convert row).

(** ** JavaScript values used by the model *)

(** The result of [parseInt]: [NaN] or an integer. *)
Inductive JsNumber :=
  | NaN
  | Int (z : Z).

#[global] Instance JsNumber_eq_dec : EqDecision JsNumber.
Proof. solve_decision. Defined.

(** [Number.prototype.toString] on such a number: plain decimal, as
    JavaScript prints every integer below 10^21 in absolute value. *)
Definition toString (n : JsNumber) : string :=
  match n with
  | NaN => "NaN"
  | Int z => pretty z
  end.

(** The white space and line terminators of one byte: TAB, LF, VT, FF, CR
    and SPACE. *)
Definition is_white_space (c : Ascii.ascii) : bool :=
  let n := Ascii.N_of_ascii c in
  ((9 <=? n) && (n <=? 13) || (n =? 32))%N.

(** The first byte of a white-space character of two or three bytes. *)
Definition is_white_space_lead (c : Ascii.ascii) : bool :=
  let n := Ascii.N_of_ascii c in
  ((n =? 194) || (n =? 225) || (n =? 226) || (n =? 227) || (n =? 239))%N.

(** U+00A0 (no-break space). *)
Definition is_white_space2 (c1 c2 : Ascii.ascii) : bool :=
  ((Ascii.N_of_ascii c1 =? 194) && (Ascii.N_of_ascii c2 =? 160))%N.

(** U+1680, U+2000 to U+200A, U+2028, U+2029, U+202F, U+205F, U+3000 and
    U+FEFF. *)
Definition is_white_space3 (c1 c2 c3 : Ascii.ascii) : bool :=
  let a := Ascii.N_of_ascii c1 in
  let b := Ascii.N_of_ascii c2 in
  let c := Ascii.N_of_ascii c3 in
  ((a =? 225) && (b =? 154) && (c =? 128)
   || (a =? 226) && (b =? 128)
      && ((128 <=? c) && (c <=? 138) || (c =? 168) || (c =? 169) || (c =? 175))
   || (a =? 226) && (b =? 129) && (c =? 159)
   || (a =? 227) && (b =? 128) && (c =? 128)
   || (a =? 239) && (b =? 187) && (c =? 191))%N.

(** Drops the leading white space and line terminators of JavaScript, each
    in its UTF-8 encoding. *)
Fixpoint trim_start (s : string) : string :=
  match s with
  | String c s' =>
      if is_white_space c then trim_start s'
      else if negb (is_white_space_lead c) then s
      else
        match s' with
        | String c2 s2 =>
            if is_white_space2 c c2 then trim_start s2
            else
              match s2 with
              | String c3 s3 => if is_white_space3 c c2 c3 then trim_start s3 else s
              | EmptyString => s
              end
        | EmptyString => s
        end
  | EmptyString => EmptyString
  end.

Definition digit_value (radix : Z) (c : Ascii.ascii) : option Z :=
  let n := Z.of_N (Ascii.N_of_ascii c) in
  let v := if bool_decide (48 ≤ n ≤ 57) then Some (n - 48)
           else if bool_decide (97 ≤ n ≤ 122) then Some (n - 87)
           else if bool_decide (65 ≤ n ≤ 90) then Some (n - 55)
           else None in
  v ≫= λ d, if bool_decide (d < radix) then Some d else None.

(** The longest prefix of radix digits, as a number; [None] when empty. *)
Fixpoint parse_digits (radix : Z) (s : string) (acc : option Z) : option Z :=
  match s with
  | String c s' =>
      match digit_value radix c with
      | Some d => parse_digits radix s' (Some (radix * default 0 acc + d))
      | None => acc
      end
  | EmptyString => acc
  end.

(** [parseInt(string)] without a radix argument: leading white space is
    skipped, a sign is read, a [0x]/[0X] prefix selects radix 16, and the
    longest digit prefix is the result; [NaN] when there is none.  The result
    is the integer the digits denote: the number JavaScript returns when that
    integer is a safe integer (beyond, JavaScript rounds it to a double). *)
Definition parseInt (s : string) : JsNumber :=
  let s1 := trim_start s in
  let '(sign, s2) :=
    match s1 with
    | String "-" r => (-1, r)
    | String "+" r => (1, r)
    | _ => (1, s1)
    end in
  let '(radix, s3) :=
    match s2 with
    | String "0" (String "x" r) | String "0" (String "X" r) => (16, r)
    | _ => (10, s2)
    end in
  match parse_digits radix s3 None with
  | Some n => Int (sign * n)
  | None => NaN
  end.

(** Modelled from the spec: [uniqueArray] of [dataService/utils] is not part
    of the sources; identifiers are "deduplicated before execution".  Each
    value is kept at its first occurrence. *)
Fixpoint uniqueArray {A} `{EqDecision A} (l : list A) : list A :=
  match l with
  | [] => []
  | x :: l' => x :: filter (λ y, y ≠ x) (uniqueArray l')
  end.

(** ** The request world: context, storage, collaborators *)

Inductive DbClient := readClient | writeClient.

#[global] Instance DbClient_eq_dec : EqDecision DbClient.
Proof. solve_decision. Defined.

(** The fields of [IContext] the sources read or assign. *)
Record IContext := mkContext {
  userId : string;
  apiId : string;
  dbClient : DbClient;
}.

(** Modelled from the spec: the storage boundary.  A row table keyed by
    [(user_id, item_id)], the id being the string-encoded integer the queries
    are given, and an association table of [(user_id, item_id, tag_name)].
    A tag exists exactly as long as it has an association. *)
Record Db := mkDb {
  list_table : gmap (string * string) RawListResult;
  item_tags : gset (string * string * string);
}.

(** Modelled from the spec: [SavedItem] of [../types] is not part of the
    sources; the attributes are those of the spec's data model. *)
Record SavedItem := mkSavedItem {
  si_id : string;
  si_resolvedId : string;
  si_url : string;
  si_title : string;
  si_isFavorite : bool;
  si_isArchived : bool;
  si_status : option StatusName;
  si_favoritedAt : option Z;
  si_archivedAt : option Z;
}.

#[global] Instance SavedItem_eq_dec : EqDecision SavedItem.
Proof. solve_decision. Defined.

(** Modelled from the spec: the item type of the parser service is not part
    of the sources; the resolver capability returns the canonical item id and
    a resolved id for a URL.  The resolvers read [itemId] only. *)
Record ParserItem := mkParserItem {
  itemId : Z;
  resolvedId : Z;
  parsed_title : string;
}.

(** [SavedItemUpsertInput] of [../types], by the fields the resolver reads:
    [url] and the optional [isFavorite].  [timestamp] is the instant the
    modelled write stamps its date columns with. *)
Record SavedItemUpsertInput := mkUpsertInput {
  url : string;
  isFavorite : option bool;
  timestamp : Z;
}.

Record SavedItemTagUpdateInput := mkTagUpdateInput {
  savedItemId : string;
  tagIds : list string;
}.

Record Tag := mkTag {
  name : string;
  savedItems : list string;
}.

Inductive EventType :=
  | ADD_ITEM | ARCHIVE_ITEM | UNARCHIVE_ITEM | FAVORITE_ITEM | UNFAVORITE_ITEM
  | DELETE_ITEM | ADD_TAGS | REPLACE_TAGS | REMOVE_TAGS | CLEAR_TAGS.

#[global] Instance EventType_eq_dec : EqDecision EventType.
Proof. solve_decision. Defined.

(** One call of [context.emitItemEvent(eventType, savedItem, tags?)]. *)
Record Event := mkEvent {
  ev_type : EventType;
  ev_item : option SavedItem;
  ev_tags : option (list string);
}.

#[global] Instance Event_eq_dec : EqDecision Event.
Proof. solve_decision. Defined.

(** The calls the resolvers and models make on the data services. *)
Inductive StorageCall :=
  | GetListRowById (itemId : string)
  | ArchiveListRow (ids : list JsNumber) (timestamp : Z)
  | GetSavedItemById (id : string)
  | UpsertSavedItem (item : ParserItem) (input : SavedItemUpsertInput)
  | UpdateSavedItemTags (input : SavedItemTagUpdateInput)
  | UpdateSavedItemRemoveTags (savedItemId : string)
  | GetTagsByUserItem (savedItemId : string).

(** Reads leave the storage as it is; the others write. *)
Definition is_read (c : StorageCall) : bool :=
  match c with
  | GetListRowById _ | GetSavedItemById _ | GetTagsByUserItem _ => true
  | _ => false
  end.

(** The state one request runs in.  [parser] is the external URL resolver
    (a URL without an entry makes [ParserCaller.getOrCreateItem] fail);
    [trace] records every data-service call with the client the context
    holds when the call is made (a resolver builds its service from the
    context right at the call); [events] are the emitted events.  One storage
    stands for primary and replicas: replication lag is not modelled. *)
Record World := mkWorld {
  context : IContext;
  db : Db;
  parser : gmap string ParserItem;
  trace : list (DbClient * StorageCall);
  events : list Event;
}.

Definition set_context (c : IContext) (w : World) : World :=
  mkWorld c (db w) (parser w) (trace w) (events w).
Definition set_db (d : Db) (w : World) : World :=
  mkWorld (context w) d (parser w) (trace w) (events w).
Definition log_call (c : StorageCall) (w : World) : World :=
  mkWorld (context w) (db w) (parser w)
          (trace w ++ [(dbClient (context w), c)]) (events w).
Definition log_event (e : Event) (w : World) : World :=
  mkWorld (context w) (db w) (parser w) (trace w) (events w ++ [e]).

(** ** The monad of request computations *)

Inductive error :=
  | UserInputError (message : string)
  | NotFoundError (message : string)
  | Error (message : string).

Inductive outcome (A : Type) :=
  | Returned (a : A)
  | Thrown (e : error).
Arguments Returned {A} a.
Arguments Thrown {A} e.

Definition M (A : Type) : Type := World → outcome A * World.

#[global] Instance M_ret : MRet M := λ A a w, (Returned a, w).
#[global] Instance M_bind : MBind M := λ A B k m w,
  match m w with
  | (Returned a, w') => k a w'
  | (Thrown e, w') => (Thrown e, w')
  end.

Definition throw {A} (e : error) : M A := λ w, (Thrown e, w).

(** [try { body } catch (e) { handler(e) }]: the handler runs in the world
    the body left behind. *)
Definition try_catch {A} (body : M A) (handler : error → M A) : M A := λ w,
  match body w with
  | (Returned a, w') => (Returned a, w')
  | (Thrown e, w') => handler e w'
  end.

Definition modify (f : World → World) : M unit := λ w, (Returned tt, f w).

(** A data-service call: logged with the context's client, then run on the
    storage. *)
Definition call {A} (c : StorageCall) (f : IContext → Db → A * Db) : M A := λ w,
  let w1 := log_call c w in
  let '(a, d) := f (context w1) (db w1) in
  (Returned a, set_db d w1).

Definition emitItemEvent (t : EventType) (item : option SavedItem)
    (tags : option (list string)) : M unit :=
  modify (log_event (mkEvent t item tags)).

(** ** [PocketSaveDataService] *)

(** [convertListResult] on a single row or [null], and on an array. *)
Definition convertListResult (listResult : option RawListResult) : option ListResult :=
  convert <$> listResult.
Definition convertListResults (listResult : list RawListResult) : list ListResult :=
  convert <$> listResult.

(** [getListRowById]: the first row [where user_id = userId and item_id = itemId]. *)
Definition getListRowById (itemId : string) : M (option ListResult) :=
  call (GetListRowById itemId) (λ ctx d,
    (convertListResult (list_table d !! (userId ctx, itemId)), d)).

(** ** [PocketSaveModel]

    The model builds its [PocketSaveDataService] once, from the context it is
    constructed with; its calls are logged like the others. *)

Record NotFoundInternal := mkNotFoundInternal {
  message : string;
  __typename : string;
}.

(** A [NotFound] error with its [path] resolved. *)
Record NotFound := mkNotFound {
  nf_message : string;
  nf_typename : string;
  nf_path : string;
}.

#[global] Instance NotFound_eq_dec : EqDecision NotFound.
Proof. solve_decision. Defined.

Record SaveWriteMutationPayload := mkPayload {
  save : list PocketSave;
  errors : list NotFound;
}.

Definition notFoundPayload (key value : string) : NotFoundInternal :=
  {| message := "Entity identified by key=" +:+ key +:+ ", value=" +:+ value
                +:+ " was not found.";
     __typename := "NotFound" |}.

(** Modelled from the spec: [context.models.baseError.path] is not part of the
    sources; the caller-supplied result path is rendered for the error. *)
Definition baseError_path (path : list string) : string :=
  String.concat "." path.

Definition getById (id : string) : M PocketSave :=
  listRow ← getListRowById id;
  match listRow with
  | None => throw (NotFoundError ("Saved Item with ID=" +:+ id +:+ " does not exist."))
  | Some listRow => mret (transformListRow listRow)
  end.

Definition formatSaveWriteMutationPayload (missing : list string)
    (updated : list ListResult) (path : list string) : SaveWriteMutationPayload :=
  let errors :=
    if bool_decide (0 < length missing)%nat
    then (λ missingId, notFoundPayload "id" missingId) <$> missing
    else [] in
  let save := (λ row, transformListRow row) <$> updated in
  let resolvedErrors :=
    (λ error, mkNotFound (message error) (__typename error) (baseError_path path))
      <$> errors in
  {| save := save; errors := resolvedErrors |}.

Section BulkArchive.

(** [PocketSaveDataService.archiveListRow] is not part of the sources.
    Nothing is assumed of it: it is any computation on the request state
    that returns the updated rows and the missing ids, or throws. *)
Variable archiveListRow : list JsNumber → Z → M (list ListResult * list string).

Definition saveArchive (ids : list string) (timestamp : Z) (path : list string)
    : M SaveWriteMutationPayload :=
  let uniqueIds := uniqueArray ((λ id, parseInt id) <$> ids) in
  '(updated, missing) ← archiveListRow uniqueIds timestamp;
  let payload := formatSaveWriteMutationPayload missing updated path in
  mret payload.

End BulkArchive.

(** ** Data services of the mutation resolvers *)

(** Modelled from the spec: the integer an integer column stores for the
    context's user id, which is a string. *)
Definition column_int (s : string) : Z :=
  match parseInt s with
  | Int z => z
  | NaN => 0
  end.

(** Modelled from the spec: the [SavedItem] view of a stored row, as the row
    transform derives it. *)
Definition toSavedItem (row : RawListResult) : SavedItem :=
  {| si_id := pretty (raw_item_id row);
     si_resolvedId := pretty (raw_resolved_id row);
     si_url := raw_given_url row;
     si_title := raw_title row;
     si_isFavorite := bool_decide (raw_favorite row = 1);
     si_isArchived := bool_decide (raw_status row = PocketSaveStatus ARCHIVED);
     si_status := statusMap !! raw_status row;
     si_favoritedAt := if bool_decide (raw_favorite row = 1)
                       then mysqlDateConvert (raw_time_favorited row) else None;
     si_archivedAt := if bool_decide (raw_status row = PocketSaveStatus ARCHIVED)
                      then mysqlDateConvert (raw_time_read row) else None |}.

(** Modelled from the spec: [SavedItemDataService.getSavedItemById] is not
    part of the sources; a read by identity scoped to the caller. *)
Definition getSavedItemById (id : string) : M (option SavedItem) :=
  call (GetSavedItemById id) (λ ctx d,
    (toSavedItem <$> list_table d !! (userId ctx, id), d)).

(** JavaScript truthiness of an optional boolean. *)
Definition truthy (b : option bool) : bool := default false b.

(** Modelled from the spec: the row an upsert writes.  A fresh row with the
    favorite flag as given, or the existing row back in UNREAD with the
    favorite flag as given; [favoritedAt] is stamped only on the transition
    from false, [archivedAt] is cleared, user, url and [createdAt] of an
    existing row stay. *)
Definition upsertRow (ctx : IContext) (item : ParserItem)
    (input : SavedItemUpsertInput) (existing : option RawListResult) : RawListResult :=
  let fav := if truthy (isFavorite input) then 1 else 0 in
  let now := DateTime (timestamp input) in
  match existing with
  | None =>
      mkRawListResult (apiId ctx) 0 fav (url input) (itemId item) (resolvedId item)
        (PocketSaveStatus UNREAD) now
        (if truthy (isFavorite input) then now else ZeroDate) ZeroDate now
        (parsed_title item) (column_int (userId ctx))
  | Some row =>
      mkRawListResult (raw_api_id row) (raw_api_id_updated row) fav
        (raw_given_url row) (raw_item_id row) (raw_resolved_id row)
        (PocketSaveStatus UNREAD) (raw_time_added row)
        (if truthy (isFavorite input)
         then (if bool_decide (raw_favorite row = 1) then raw_time_favorited row else now)
         else ZeroDate)
        ZeroDate now (raw_title row) (raw_user_id row)
  end.

(** Modelled from the spec: [SavedItemMutationService.upsertSavedItem] is not
    part of the sources; it inserts or updates the caller's row of the item. *)
Definition SavedItemMutationService_upsertSavedItem (item : ParserItem)
    (input : SavedItemUpsertInput) : M unit :=
  call (UpsertSavedItem item input) (λ ctx d,
    let key := (userId ctx, pretty (itemId item)) in
    (tt, mkDb (<[key := upsertRow ctx item input (list_table d !! key)]> (list_table d))
              (item_tags d))).

(** The associations of one saved item of one user. *)
Definition of_item (uid id : string) (a : string * string * string) : Prop :=
  a.1 = (uid, id).

#[global] Instance of_item_dec uid id a : Decision (of_item uid id a).
Proof. unfold of_item; apply _. Defined.

(** Modelled from the spec: [TagDataService.getTagsByUserItem] is not part of
    the sources; the tags associated with the caller's saved item, each with
    the caller's saved items that carry it. *)
Definition getTagsByUserItem (savedItemId : string) : M (list Tag) :=
  call (GetTagsByUserItem savedItemId) (λ ctx d,
    ((λ a : string * string * string,
        mkTag a.2 ((λ b : string * string * string, b.1.2) <$>
                   elements (filter (λ b : string * string * string,
                                       b.1.1 = userId ctx ∧ b.2 = a.2) (item_tags d))))
       <$> elements (filter (of_item (userId ctx) savedItemId) (item_tags d)), d)).

(** Modelled from the spec: [TagMutationService.updateSavedItemRemoveTags] is
    not part of the sources; it deletes all associations of one saved item. *)
Definition TagMutationService_updateSavedItemRemoveTags (savedItemId : string) : M unit :=
  call (UpdateSavedItemRemoveTags savedItemId) (λ ctx d,
    (tt, mkDb (list_table d)
              (filter (λ a, ¬ of_item (userId ctx) savedItemId a) (item_tags d)))).

(** The external parser: [ParserCaller.getOrCreateItem] fails for a URL it
    cannot resolve. *)
Definition ParserCaller_getOrCreateItem (url : string) : M ParserItem := λ w,
  match parser w !! url with
  | Some item => (Returned item, w)
  | None => (Thrown (Error ("unable to parse and generate item for " +:+ url)), w)
  end.

(** ** [resolvers/mutation] *)

Section UpsertSavedItem.

(** The services [upsertSavedItem] calls: [ParserCaller.getOrCreateItem],
    [SavedItemDataService.getSavedItemById] and
    [SavedItemMutationService.upsertSavedItem].  Each is any computation on
    the request state: it may throw, and a read may find nothing. *)
Variable getOrCreateItem : string → M ParserItem.
Variable itemDataService_getSavedItemById : string → M (option SavedItem).
Variable mutationService_upsertSavedItem : ParserItem → SavedItemUpsertInput → M unit.

(** [upsertSavedItem(_, args, context)], [args.input] being the argument.
    Logging to the console and to Sentry is left out. *)
Definition upsertSavedItem_with (parent : unit) (input : SavedItemUpsertInput)
    : M SavedItem :=
  let savedItemUpsertInput := input in
  try_catch
    (item ← getOrCreateItem (url savedItemUpsertInput);
     existingItem ← itemDataService_getSavedItemById (pretty (itemId item));
     let shouldSendFavoriteEvent :=
       truthy (isFavorite savedItemUpsertInput)
       && negb (from_option si_isFavorite false existingItem) in
     let savedItemUpsertInput :=
       match existingItem with
       | Some existingItem =>
           if negb (truthy (isFavorite savedItemUpsertInput))
           then mkUpsertInput (url savedItemUpsertInput)
                              (Some (si_isFavorite existingItem))
                              (timestamp savedItemUpsertInput)
           else savedItemUpsertInput
       | None => savedItemUpsertInput
       end in
     mutationService_upsertSavedItem item savedItemUpsertInput;;
     upsertedItem ← itemDataService_getSavedItemById (pretty (itemId item));
     match upsertedItem with
     | None => throw (Error "unable to add an item")
     | Some upsertedItem =>
         match existingItem with
         | Some existingItem =>
             if si_isArchived existingItem
             then emitItemEvent UNARCHIVE_ITEM (Some upsertedItem) None
             else mret tt
         | None => emitItemEvent ADD_ITEM (Some upsertedItem) None
         end;;
         (if shouldSendFavoriteEvent
          then emitItemEvent FAVORITE_ITEM (Some upsertedItem) None
          else mret tt);;
         mret upsertedItem
     end)
    (λ e, throw (Error ("unable to add item with url: " +:+ url savedItemUpsertInput))).

End UpsertSavedItem.

Section Resolvers.

(** [decodeBase64ToPlainText] of [dataService/utils] is not part of the
    sources: a tag id is the encoded tag name.  Nothing is assumed of it. *)
Variable decodeBase64ToPlainText : string → string.

(** Modelled from the spec: [TagMutationService.updateSavedItemTags] is not
    part of the sources; it fully replaces the prior tag associations of the
    saved item with the new set. *)
Definition TagMutationService_updateSavedItemTags (input : SavedItemTagUpdateInput)
    : M unit :=
  call (UpdateSavedItemTags input) (λ ctx d,
    (tt, mkDb (list_table d)
              (filter (λ a, ¬ of_item (userId ctx) (savedItemId input) a) (item_tags d)
               ∪ list_to_set ((λ id, (userId ctx, savedItemId input,
                                      decodeBase64ToPlainText id)) <$> tagIds input)))).

(** [upsertSavedItem] on the services of this development. *)
Definition upsertSavedItem (parent : unit) (input : SavedItemUpsertInput) : M SavedItem :=
  upsertSavedItem_with ParserCaller_getOrCreateItem getSavedItemById
    SavedItemMutationService_upsertSavedItem parent input.

Definition updateSavedItemTags (root : unit) (input : SavedItemTagUpdateInput)
    : M (option SavedItem) :=
  (if bool_decide (length (tagIds input) ≤ 0)%nat
   then throw (UserInputError
          ("SavedItemTagUpdateInput.tagIds cannot be empty. use mutation updateSavedItemRemoveTags to"
           +:+ "remove all tags"))
   else mret tt);;
  existing ← getSavedItemById (savedItemId input);
  (if bool_decide (existing = None)
   then throw (NotFoundError ("SavedItem Id " +:+ savedItemId input +:+ " does not exist"))
   else mret tt);;
  TagMutationService_updateSavedItemTags input;;
  savedItem ← getSavedItemById (savedItemId input);
  emitItemEvent REPLACE_TAGS savedItem
    (Some ((λ id, decodeBase64ToPlainText id) <$> tagIds input));;
  mret savedItem.

Definition updateSavedItemRemoveTags (root : unit) (savedItemId : string)
    : M SavedItem :=
  tagsCleared ← getTagsByUserItem savedItemId;
  TagMutationService_updateSavedItemRemoveTags savedItemId;;
  savedItem ← getSavedItemById savedItemId;
  match savedItem with
  | None => throw (NotFoundError ("SavedItem Id " +:+ savedItemId +:+ " does not exist"))
  | Some savedItem =>
      emitItemEvent CLEAR_TAGS (Some savedItem) (Some ((λ tag, name tag) <$> tagsCleared));;
      mret savedItem
  end.

End Resolvers.

(** ** [resolvers/index]: mutations run on the write connection *)

Definition use_client (c : DbClient) (ctx : IContext) : IContext :=
  mkContext (userId ctx) (apiId ctx) c.

(** [executeMutation(mutate)]: assigns [context.dbClient = writeClient()] and
    calls [mutate(parent, args, context)]. *)
Definition executeMutation {Args ReturnType : Type}
    (mutate : unit → Args → M ReturnType) : unit → Args → M ReturnType :=
  λ parent args,
    modify (λ w, set_context (use_client writeClient (context w)) w);;
    mutate parent args.

(** A resolver function of any argument and result type. *)
Record Resolver := mkResolver {
  Args : Type;
  ReturnType : Type;
  resolve : unit → Args → M ReturnType;
}.

(** [Object.keys(resolvers.Mutation).reduce(...)]: every key of the object is
    set, in a fresh object, to its function wrapped by [executeMutation]. *)
Definition wrapMutations (Mutation : gmap string Resolver) : gmap string Resolver :=
  map_fold (λ mutationName mutate mutations,
              <[mutationName := mkResolver _ _ (executeMutation (resolve mutate))]> mutations)
           ∅ Mutation.

(** JavaScript truthiness of a number: [NaN] and 0 are falsy. *)
Definition truthy_number (n : JsNumber) : bool :=
  match n with
  | NaN => false
  | Int z => negb (bool_decide (z = 0))
  end.

(** [resolvers.ItemResult.__resolveType]. *)
Definition ItemResult_resolveType (savedItem : SavedItem) : string :=
  if truthy_number (parseInt (si_resolvedId savedItem)) then "Item" else "PendingItem".

(** ** Notions the properties are stated with *)

(** A string of decimal digits, as [toString] writes a natural number. *)
Fixpoint digits_only (s : string) : Prop :=
  match s with
  | EmptyString => True
  | String c s' => (∃ d, (d < 10)%N ∧ c = pretty_N_char d) ∧ digits_only s'
  end.

(** A safe integer of JavaScript: below 2^53 in absolute value.  On these a
    number is exactly its integer and prints in plain decimal. *)
Definition safe_integer (z : Z) : Prop := - 2 ^ 53 < z < 2 ^ 53.

(** An identifier that parses to a safe integer. *)
Definition safe_id (id : string) : Prop :=
  match parseInt id with
  | NaN => False
  | Int z => safe_integer z
  end.


(** The caller's saved item for the parser's item, as stored before a call. *)
Definition existing_item (w : World) (item : ParserItem) : option SavedItem :=
  toSavedItem <$> list_table (db w) !! (userId (context w), pretty (itemId item)).

(** The trace entry of a call made with the context's current client. *)
Definition called (w : World) (c : StorageCall) : DbClient * StorageCall :=
  (dbClient (context w), c).

(** A tag of a user exists as long as one of the user's items carries it. *)
Definition tag_exists (d : Db) (uid tag : string) : Prop :=
  ∃ item, (uid, item, tag) ∈ item_tags d.

(** A computation that leaves the context as it is and makes each of its
    data-service calls with the client the context holds when it starts. *)
Definition keeps_client {A : Type} (m : M A) : Prop :=
  ∀ w, context (m w).2 = context w ∧
       ∃ calls, trace (m w).2 = (trace w ++ calls)%list ∧
                Forall (λ c, c.1 = dbClient (context w)) calls.

(** [executeMutation] applied to a registered resolver. *)
Definition wrapped (r : Resolver) : Resolver :=
  mkResolver (Args r) (ReturnType r) (executeMutation (resolve r)).

(** ** Concrete rows and worlds used in the examples *)

(** An unread row of user 1, item 10. *)
Definition row_unread : RawListResult :=
  mkRawListResult "api" 0 0 "http://a.example" 10 10 0
    (DateTime 5) ZeroDate ZeroDate (DateTime 5) "a" 1.

(** A row of user 1, item 12, archived at instant 100. *)
Definition row_archived : RawListResult :=
  mkRawListResult "api" 0 1 "http://b.example" 12 12 1
    (DateTime 5) (DateTime 7) (DateTime 100) (DateTime 100) "b" 1.

(** An archived row whose [time_read] column holds the zero date. *)
Definition row_archived_zero_read : RawListResult :=
  mkRawListResult "api" 0 0 "http://c.example" 13 13 1
    (DateTime 5) ZeroDate ZeroDate (DateTime 9) "c" 1.

(** A row whose status code is not a [PocketSaveStatus]. *)
Definition row_status7 : RawListResult :=
  mkRawListResult "api" 0 0 "http://d.example" 7 7 7
    (DateTime 5) ZeroDate (DateTime 6) (DateTime 6) "d" 1.

(** A row with every date column at the zero date, not a favorite. *)
Definition row_zero_dates : RawListResult :=
  mkRawListResult "api" 0 0 "http://e.example" 14 14 2
    ZeroDate ZeroDate ZeroDate ZeroDate "e" 1.

Definition world_of (client : DbClient) (d : Db) (p : gmap string ParserItem) : World :=
  mkWorld (mkContext "1" "api" client) d p [] [].

Definition db_example : Db :=
  mkDb (<[("1", "10") := row_unread]>
        (<[("1", "12") := row_archived]>
        (<[("1", "7") := row_status7]> ∅)))
       {[ ("1", "12", "news"); ("1", "99", "orphan"); ("1", "99", "news") ]}.

Definition parser_example : gmap string ParserItem :=
  <["http://b.example" := mkParserItem 12 12 "b"]>
  (<["http://new.example" := mkParserItem 20 20 "new"]> ∅).

Definition world_example : World := world_of readClient db_example parser_example.

(** A bulk-archive service that finds none of the rows: one call, every id
    reported missing. *)
Definition archiveListRow_example (ids : list JsNumber) (timestamp : Z)
    : M (list ListResult * list string) :=
  call (ArchiveListRow ids timestamp) (λ ctx d, (([], toString <$> ids), d)).


(** Three of the registered mutations, under their names. *)
Definition Mutation_example : gmap string Resolver :=
  <["upsertSavedItem" := mkResolver _ _ upsertSavedItem]>
  (<["updateSavedItemTags" := mkResolver _ _ (updateSavedItemTags (λ id, id))]>
  (<["updateSavedItemRemoveTags" := mkResolver _ _ updateSavedItemRemoveTags]> ∅)).

(** * Properties *)

(** ** The row transform *)

Lemma statusMap_lookup (c : Z) :
  statusMap !! c =
    if bool_decide (c = 0) then Some UNREAD
    else if bool_decide (c = 1) then Some ARCHIVED
    else if bool_decide (c = 2) then Some DELETED
    else if bool_decide (c = 3) then Some HIDDEN
    else None.
Proof.
  unfold statusMap; simpl.
  repeat case_bool_decide; subst; simplify_map_eq; done.
Qed.

Lemma statusMap_archived (c : Z) :
  statusMap !! c = Some ARCHIVED ↔ c = PocketSaveStatus ARCHIVED.
Proof.
  rewrite statusMap_lookup; simpl.
  repeat case_bool_decide; subst; split; intros; simplify_eq; done.
Qed.

Lemma statusMap_outside (c : Z) :
  statusMap !! c = None ↔ c ∉ PocketSaveStatus <$> [UNREAD; ARCHIVED; DELETED; HIDDEN].
Proof.
  rewrite statusMap_lookup; simpl. rewrite !not_elem_of_cons.
  pose proof (not_elem_of_nil c).
  repeat case_bool_decide; subst; intuition congruence.
Qed.

Lemma getById_stored (w : World) (id : string) (row : RawListResult) :
  list_table (db w) !! (userId (context w), id) = Some row →
  getById id w = (Returned (rowTransform row), log_call (GetListRowById id) w).
Proof.
  intros Hrow. unfold getById, getListRowById, call, mbind, M_bind; simpl.
  rewrite Hrow; simpl. destruct w; reflexivity.
Qed.

(** C5, as stated, fails: the row with status code 7, which [statusMap] does
    not know, is transformed without any error, into an entity whose status
    is undefined; reading it by id returns that entity. *)
Lemma malformed_row_is_returned :
  statusMap !! raw_status row_status7 = None ∧
  ps_status (rowTransform row_status7) = None ∧
  (getById "7" world_example).1 = Returned (rowTransform row_status7) ∧
  ¬ (∃ e, (getById "7" world_example).1 = Thrown e).
Proof.
  split; [vm_compute; reflexivity|].
  split; [vm_compute; reflexivity|].
  rewrite (getById_stored world_example "7" row_status7) by (vm_compute; reflexivity).
  split; [reflexivity|]. intros [e He]; discriminate He.
Qed.

(** C5 (amended): the row transform never fails on the status code.  For a raw
    row whose status code is outside the mapping domain {0, 1, 2, 3} the
    converted row has an undefined status, and the entity has an undefined
    status, is not archived and has neither [archivedAt] nor [deletedAt];
    reading such a stored row by id returns that entity. *)
Theorem unknown_status_is_undefined (row : RawListResult) :
  raw_status row ∉ PocketSaveStatus <$> [UNREAD; ARCHIVED; DELETED; HIDDEN] →
  status (convert row) = None ∧
  ps_status (rowTransform row) = None ∧
  ps_archived (rowTransform row) = false ∧
  ps_archivedAt (rowTransform row) = None ∧
  ps_deletedAt (rowTransform row) = None ∧
  ∀ w id, list_table (db w) !! (userId (context w), id) = Some row →
          (getById id w).1 = Returned (rowTransform row).
Proof.
  intros Hout. apply statusMap_outside in Hout.
  unfold rowTransform, transformListRow, convert, status_is; simpl.
  rewrite Hout; simpl.
  repeat split; try reflexivity.
  intros w id Hrow. rewrite (getById_stored w id row Hrow); simpl.
  unfold rowTransform, transformListRow, convert, status_is; simpl.
  rewrite Hout; reflexivity.
Qed.

Lemma unknown_status_is_undefined_witness :
  status (convert row_status7) = None ∧
  ps_status (rowTransform row_status7) = None ∧
  ps_archived (rowTransform row_status7) = false ∧
  ps_archivedAt (rowTransform row_status7) = None ∧
  ps_deletedAt (rowTransform row_status7) = None ∧
  ∀ w id, list_table (db w) !! (userId (context w), id) = Some row_status7 →
          (getById id w).1 = Returned (rowTransform row_status7).
Proof.
  apply (unknown_status_is_undefined row_status7).
  simpl. rewrite !not_elem_of_cons.
  repeat split; [discriminate ..| apply not_elem_of_nil].
Defined.

(** C6, as stated, fails: an archived row whose [time_read] is the zero date
    is transformed into an entity with status ARCHIVED and no [archivedAt]. *)
Lemma archived_row_without_archivedAt :
  ps_status (rowTransform row_archived_zero_read) = Some ARCHIVED ∧
  ps_archivedAt (rowTransform row_archived_zero_read) = None ∧
  ¬ (is_Some (ps_archivedAt (rowTransform row_archived_zero_read)) ↔
     ps_status (rowTransform row_archived_zero_read) = Some ARCHIVED).
Proof.
  split; [vm_compute; reflexivity|].
  split; [vm_compute; reflexivity|].
  intros [_ Himp].
  assert (Hsome : is_Some (ps_archivedAt (rowTransform row_archived_zero_read))).
  { apply Himp. vm_compute; reflexivity. }
  destruct Hsome as [t Ht]. vm_compute in Ht. discriminate Ht.
Qed.

(** C6 (amended): for every raw list row, [archivedAt] of the transformed
    entity is present if and only if its status is ARCHIVED and the row's
    [time_read] column is not the zero date; when present it is the instant
    of [time_read]. *)
Theorem archivedAt_iff_archived_and_read (row : RawListResult) :
  (is_Some (ps_archivedAt (rowTransform row)) ↔
     ps_status (rowTransform row) = Some ARCHIVED ∧ raw_time_read row ≠ ZeroDate) ∧
  (∀ t, ps_archivedAt (rowTransform row) = Some t ↔
     ps_status (rowTransform row) = Some ARCHIVED ∧ raw_time_read row = DateTime t).
Proof.
  unfold rowTransform, transformListRow, convert, status_is; simpl.
  split; [|intros t]; case_bool_decide as Hst; destruct (raw_time_read row); simpl;
    rewrite ?is_Some_alt; split; intros; destruct_and?; simplify_eq; eauto; done.
Qed.

(** C7: a zero date in a raw column never reaches the transformed entity: the
    timestamps taken from that column are absent.  And a row that is not a
    favorite has no [favoritedAt], whatever [time_favorited] holds. *)
Theorem zero_date_is_absent (row : RawListResult) :
  (raw_time_added row = ZeroDate → ps_createdAt (rowTransform row) = None) ∧
  (raw_time_updated row = ZeroDate →
     ps_updatedAt (rowTransform row) = None ∧ ps_deletedAt (rowTransform row) = None) ∧
  (raw_time_read row = ZeroDate → ps_archivedAt (rowTransform row) = None) ∧
  (raw_time_favorited row = ZeroDate → ps_favoritedAt (rowTransform row) = None) ∧
  (raw_favorite row = 0 → ps_favoritedAt (rowTransform row) = None).
Proof.
  unfold rowTransform, transformListRow, convert; simpl.
  split; [intros ->; reflexivity|].
  split; [intros ->; simpl; split; [reflexivity | by case_match]|].
  split; [intros ->; simpl; by case_match|].
  split; [intros ->; simpl; by case_match|].
  intros ->; reflexivity.
Qed.

Lemma zero_date_is_absent_witness :
  raw_time_favorited row_zero_dates = ZeroDate ∧
  raw_favorite row_zero_dates = 0 ∧
  ps_favoritedAt (rowTransform row_zero_dates) = None ∧
  ps_createdAt (rowTransform row_zero_dates) = None ∧
  ps_updatedAt (rowTransform row_zero_dates) = None ∧
  ps_deletedAt (rowTransform row_zero_dates) = None ∧
  ps_archivedAt (rowTransform row_zero_dates) = None.
Proof.
  destruct (zero_date_is_absent row_zero_dates) as (Hc & Hu & Ha & Hf & _).
  split; [reflexivity|]. split; [reflexivity|].
  split; [apply Hf; reflexivity|].
  split; [apply Hc; reflexivity|].
  split; [apply Hu; reflexivity|].
  split; [apply Hu; reflexivity|].
  apply Ha; reflexivity.
Defined.

(** ** Helpers of the bulk operations *)

Section UniqueArray.
Context {A : Type} `{EqDecision A}.

Lemma elem_of_uniqueArray (l : list A) (x : A) : x ∈ uniqueArray l ↔ x ∈ l.
Proof.
  induction l as [|y l IH]; simpl; [done|].
  rewrite !elem_of_cons, list_elem_of_filter, IH.
  destruct (decide (x = y)); tauto.
Qed.

Lemma NoDup_uniqueArray (l : list A) : NoDup (uniqueArray l).
Proof.
  induction l as [|y l IH]; simpl; [constructor|].
  apply NoDup_cons. split; [|by apply NoDup_filter].
  rewrite list_elem_of_filter. by intros [Hne _].
Qed.

End UniqueArray.

Lemma string_app_cons (c : Ascii.ascii) (s t : string) :
  String c s +:+ t = String c (s +:+ t).
Proof. reflexivity. Qed.

Lemma string_app_length (s t : string) :
  String.length (s +:+ t) = (String.length s + String.length t)%nat.
Proof.
  induction s as [|c s IH]; [done|].
  rewrite string_app_cons. simpl. by rewrite IH.
Qed.

Lemma string_app_inv_tail (s1 s2 t : string) : s1 +:+ t = s2 +:+ t → s1 = s2.
Proof.
  revert s2. induction s1 as [|c s1 IH]; intros [|c2 s2] Heq.
  - done.
  - apply (f_equal String.length) in Heq.
    rewrite !string_app_length in Heq. simpl in Heq. lia.
  - apply (f_equal String.length) in Heq.
    rewrite !string_app_length in Heq. simpl in Heq. lia.
  - rewrite !string_app_cons in Heq. injection Heq as -> Heq. f_equal. by apply IH.
Qed.

(** The message of a [NotFound] payload determines the value it names. *)
Lemma notFoundPayload_inj (key v1 v2 : string) :
  message (notFoundPayload key v1) = message (notFoundPayload key v2) → v1 = v2.
Proof.
  unfold notFoundPayload; simpl. intros Heq.
  do 3 apply String.app_inj in Heq.
  by apply string_app_inv_tail in Heq.
Qed.

Lemma formatSaveWriteMutationPayload_errors (missing : list string)
    (updated : list ListResult) (path : list string) :
  errors (formatSaveWriteMutationPayload missing updated path) =
    (λ v, mkNotFound (message (notFoundPayload "id" v)) "NotFound" (baseError_path path))
      <$> missing.
Proof.
  unfold formatSaveWriteMutationPayload; simpl.
  case_bool_decide as Hlen; [by rewrite <- list_fmap_compose|].
  destruct missing; [done|simpl in Hlen; lia].
Qed.

(** ** The mutation resolvers *)

(** Unfolds the monad down to functions on the world. *)
Ltac run_M :=
  unfold mbind, M_bind, mret, M_ret, try_catch, throw, call, emitItemEvent,
    modify, ParserCaller_getOrCreateItem, log_event, set_db, log_call,
    set_context; simpl.

(** The input [upsertSavedItem] hands to the mutation service. *)
Lemma upsertSavedItem_run (input : SavedItemUpsertInput) (w : World) (item : ParserItem) :
  parser w !! url input = Some item →
  let id := pretty (itemId item) in
  let key := (userId (context w), id) in
  let existingItem := existing_item w item in
  let input' :=
    match existingItem with
    | Some e => if negb (truthy (isFavorite input))
                then mkUpsertInput (url input) (Some (si_isFavorite e)) (timestamp input)
                else input
    | None => input
    end in
  let upserted := toSavedItem (upsertRow (context w) item input' (list_table (db w) !! key)) in
  let evs :=
    (match existingItem with
     | Some e => if si_isArchived e then [mkEvent UNARCHIVE_ITEM (Some upserted) None] else []
     | None => [mkEvent ADD_ITEM (Some upserted) None]
     end ++
     (if truthy (isFavorite input) && negb (from_option si_isFavorite false existingItem)
      then [mkEvent FAVORITE_ITEM (Some upserted) None] else []))%list in
  upsertSavedItem tt input w =
    (Returned upserted,
     mkWorld (context w)
       (mkDb (<[key := upsertRow (context w) item input' (list_table (db w) !! key)]>
                (list_table (db w))) (item_tags (db w)))
       (parser w)
       (trace w ++ [called w (GetSavedItemById id); called w (UpsertSavedItem item input');
                    called w (GetSavedItemById id)])%list
       (events w ++ evs)%list).
Proof.
  intros Hitem. destruct input as [u fav ts]; simpl in Hitem.
  unfold upsertSavedItem, upsertSavedItem_with, existing_item, called,
    SavedItemMutationService_upsertSavedItem, getSavedItemById. run_M.
  rewrite Hitem; simpl.
  destruct (list_table (db w) !! (userId (context w), pretty (itemId item)))
    as [row|] eqn:Hrow; simpl.
  - destruct fav as [[|]|]; simpl; rewrite lookup_insert_eq; simpl;
      destruct (bool_decide (raw_favorite row = 1)) eqn:Hfav;
      destruct (bool_decide (raw_status row = 1)) eqn:Hst; simpl;
      rewrite <- ?app_assoc, ?app_nil_r; reflexivity.
  - destruct fav as [[|]|]; simpl; rewrite lookup_insert_eq; simpl;
      rewrite <- ?app_assoc, ?app_nil_r; reflexivity.
Qed.

Lemma upsertSavedItem_parser_failure (input : SavedItemUpsertInput) (w : World) :
  parser w !! url input = None →
  upsertSavedItem tt input w =
    (Thrown (Error ("unable to add item with url: " +:+ url input)), w).
Proof.
  intros Hitem. unfold upsertSavedItem, upsertSavedItem_with. run_M.
  by rewrite Hitem.
Qed.

(** C3: upsert never unfavorites.  When the caller's item for the resolved id
    exists and is a favorite and the caller passes [isFavorite = false], the
    input handed to the mutation service carries [isFavorite = true], and the
    item returned, which is the item stored after the call, is a favorite. *)
Theorem upsertSavedItem_never_unfavorites (input : SavedItemUpsertInput) (w : World)
    (item : ParserItem) (existing : SavedItem) :
  parser w !! url input = Some item →
  existing_item w item = Some existing →
  si_isFavorite existing = true →
  isFavorite input = Some false →
  ∃ r w' input',
    upsertSavedItem tt input w = (Returned r, w') ∧
    isFavorite input' = Some true ∧
    called w (UpsertSavedItem item input') ∈ trace w' ∧
    si_isFavorite r = true ∧
    existing_item w' item = Some r.
Proof.
  intros Hitem Hex Hfav Hin.
  rewrite (upsertSavedItem_run input w item Hitem); simpl.
  rewrite Hex, Hin; simpl.
  unfold existing_item in Hex. apply fmap_Some in Hex as (row & Hrow & ->).
  rewrite Hrow, Hfav.
  eexists _, _, (mkUpsertInput (url input) (Some true) (timestamp input)).
  split; [reflexivity|]. split; [reflexivity|].
  split. { simpl. rewrite elem_of_app, !elem_of_cons. right; right; left. reflexivity. }
  split; [reflexivity|].
  unfold existing_item; simpl. by rewrite lookup_insert_eq.
Qed.

Lemma upsertSavedItem_never_unfavorites_witness :
  ∃ r w' input',
    upsertSavedItem tt (mkUpsertInput "http://b.example" (Some false) 300) world_example
      = (Returned r, w') ∧
    isFavorite input' = Some true ∧
    called world_example (UpsertSavedItem (mkParserItem 12 12 "b") input') ∈ trace w' ∧
    si_isFavorite r = true ∧
    existing_item w' (mkParserItem 12 12 "b") = Some r.
Proof.
  apply (upsertSavedItem_never_unfavorites
           (mkUpsertInput "http://b.example" (Some false) 300) world_example
           (mkParserItem 12 12 "b") (toSavedItem row_archived)).
  - vm_compute; reflexivity.
  - vm_compute; reflexivity.
  - vm_compute; reflexivity.
  - reflexivity.
Defined.

(** Settles the membership facts about a concrete list of event types. *)
Ltac event_types :=
  simpl; rewrite ?elem_of_cons, ?elem_of_nil;
  repeat match goal with
         | |- _ ↔ _ => split
         | |- _ ∧ _ => split
         | |- ∀ _, _ => intro
         | |- ¬ _ => intro
         | H : ∃ _, _ |- _ => destruct H
         | H : _ ∧ _ |- _ => destruct H
         | H : _ ∨ _ |- _ => destruct H
         | H : False |- _ => destruct H
         | H : ∀ e, Some ?x = Some e → _ |- _ => specialize (H x eq_refl)
         end;
  simplify_eq; try congruence; eauto 6.

(** C4: a successful upsert emits one event per classified transition, each
    carrying the returned item: ADD_ITEM exactly when no item existed,
    UNARCHIVE_ITEM exactly when an item existed and was archived, and
    FAVORITE_ITEM exactly when the caller asked for [isFavorite = true] and no
    existing item was a favorite already; no type is emitted twice, and a new
    add that is also a new favorite emits ADD_ITEM and FAVORITE_ITEM. *)
Theorem upsertSavedItem_events (input : SavedItemUpsertInput) (w w' : World)
    (r : SavedItem) :
  upsertSavedItem tt input w = (Returned r, w') →
  ∃ item evs,
    parser w !! url input = Some item ∧
    events w' = (events w ++ evs)%list ∧
    Forall (λ e, ev_item e = Some r) evs ∧
    NoDup (ev_type <$> evs) ∧
    (∀ t, t ∈ ev_type <$> evs → t ∈ [ADD_ITEM; UNARCHIVE_ITEM; FAVORITE_ITEM]) ∧
    (ADD_ITEM ∈ ev_type <$> evs ↔ existing_item w item = None) ∧
    (UNARCHIVE_ITEM ∈ ev_type <$> evs ↔
       ∃ e, existing_item w item = Some e ∧ si_isArchived e = true) ∧
    (FAVORITE_ITEM ∈ ev_type <$> evs ↔
       isFavorite input = Some true ∧
       ∀ e, existing_item w item = Some e → si_isFavorite e = false) ∧
    (existing_item w item = None → isFavorite input = Some true →
       ev_type <$> evs = [ADD_ITEM; FAVORITE_ITEM]).
Proof.
  intros Hrun. destruct (parser w !! url input) as [item|] eqn:Hitem.
  2: { rewrite upsertSavedItem_parser_failure in Hrun by done. discriminate. }
  rewrite (upsertSavedItem_run input w item Hitem) in Hrun.
  cbv zeta in Hrun. injection Hrun as <- <-.
  eexists item, _. split; [reflexivity|]. split; [reflexivity|].
  destruct (existing_item w item) as [e|] eqn:Hex; simpl;
    [destruct (si_isArchived e) eqn:Harch; destruct (si_isFavorite e) eqn:Hfav|];
    destruct (isFavorite input) as [[|]|] eqn:Hin; simpl;
    (split; [repeat apply Forall_cons_2; try apply Forall_nil_2; reflexivity|]);
    (split; [repeat (apply NoDup_cons_2; [solve [event_types]|]); apply NoDup_nil_2|]);
    (split; [intros t; solve [event_types]|]);
    (split; [solve [event_types]|]);
    (split; [solve [event_types]|]);
    (split; [solve [event_types]|]);
    intros; simplify_eq; reflexivity.
Qed.

Lemma upsertSavedItem_events_witness :
  ∃ r w',
    upsertSavedItem tt (mkUpsertInput "http://new.example" (Some true) 300) world_example
      = (Returned r, w') ∧
    ∃ item evs,
      parser world_example !! "http://new.example" = Some item ∧
      events w' = (events world_example ++ evs)%list ∧
      existing_item world_example item = None ∧
      ev_type <$> evs = [ADD_ITEM; FAVORITE_ITEM] ∧
      Forall (λ e, ev_item e = Some r) evs.
Proof.
  eexists _, _. split; [vm_compute; reflexivity|].
  edestruct (upsertSavedItem_events
               (mkUpsertInput "http://new.example" (Some true) 300) world_example)
    as (item & evs & Hitem & Hevs & Hall & _ & _ & Hadd & _ & _ & Hboth);
    [vm_compute; reflexivity|].
  exists item, evs.
  assert (Hitem' : item = mkParserItem 20 20 "new").
  { vm_compute in Hitem. by injection Hitem. }
  assert (Hnone : existing_item world_example item = None).
  { rewrite Hitem'. vm_compute. reflexivity. }
  split; [exact Hitem|]. split; [exact Hevs|]. split; [exact Hnone|].
  split; [apply Hboth; [exact Hnone | reflexivity]|]. exact Hall.
Defined.

(** C8: [updateSavedItemTags] rejects an empty tag-id list with a
    [UserInputError] (the spec's ValidationError) in the world it was called
    in: no data-service call is made, nothing is read or written.  With a
    non-empty list and no saved item of that id for the caller it throws
    [NotFoundError] after the one read of the saved item: no write is made,
    storage and events are as before. *)
Theorem updateSavedItemTags_rejections (decode : string → string)
    (input : SavedItemTagUpdateInput) (w : World) :
  (tagIds input = [] →
     ∃ msg, updateSavedItemTags decode tt input w = (Thrown (UserInputError msg), w)) ∧
  (tagIds input ≠ [] →
   list_table (db w) !! (userId (context w), savedItemId input) = None →
     ∃ msg w',
       updateSavedItemTags decode tt input w = (Thrown (NotFoundError msg), w') ∧
       trace w' = (trace w ++ [called w (GetSavedItemById (savedItemId input))])%list ∧
       Forall (λ c, is_read c.2 = true) [called w (GetSavedItemById (savedItemId input))] ∧
       db w' = db w ∧
       events w' = events w).
Proof.
  split.
  - intros Hempty. unfold updateSavedItemTags. run_M. rewrite Hempty; simpl.
    eexists. reflexivity.
  - intros Hne Hnone. unfold updateSavedItemTags, getSavedItemById, called. run_M.
    destruct (tagIds input) as [|tagId rest]; [done|]. simpl.
    rewrite Hnone; simpl. eexists _, _. split; [reflexivity|]. simpl.
    repeat split. by repeat constructor.
Qed.

Lemma updateSavedItemTags_rejections_witness :
  (∃ msg, updateSavedItemTags (λ s, s) tt (mkTagUpdateInput "12" []) world_example
            = (Thrown (UserInputError msg), world_example)) ∧
  (∃ msg w',
     updateSavedItemTags (λ s, s) tt (mkTagUpdateInput "404" ["news"]) world_example
       = (Thrown (NotFoundError msg), w') ∧
     trace w' = [(readClient, GetSavedItemById "404")] ∧
     db w' = db world_example ∧
     events w' = events world_example).
Proof.
  split.
  - apply (updateSavedItemTags_rejections (λ s, s) (mkTagUpdateInput "12" []) world_example).
    reflexivity.
  - destruct (updateSavedItemTags_rejections (λ s, s)
                (mkTagUpdateInput "404" ["news"]) world_example) as [_ Hnf].
    destruct Hnf as (msg & w' & Hrun & Htrace & _ & Hdb & Hev);
      [discriminate | vm_compute; reflexivity |].
    exists msg, w'. repeat split; assumption.
Defined.

(** C10: for a [savedItemId] without a saved item of the caller,
    [updateSavedItemRemoveTags] reads the tags, deletes every association of
    that id, and only then reads the saved item and throws [NotFoundError]:
    the deletion stays.  No association of the id is left, a tag that only
    this id carried no longer exists, the storage differs from before whenever
    the id had an association, and no event is emitted. *)
Theorem updateSavedItemRemoveTags_clears_before_check (id : string) (w : World) :
  list_table (db w) !! (userId (context w), id) = None →
  ∃ msg w',
    updateSavedItemRemoveTags tt id w = (Thrown (NotFoundError msg), w') ∧
    trace w' = (trace w ++ [called w (GetTagsByUserItem id);
                            called w (UpdateSavedItemRemoveTags id);
                            called w (GetSavedItemById id)])%list ∧
    item_tags (db w') =
      filter (λ a, ¬ of_item (userId (context w)) id a) (item_tags (db w)) ∧
    (∀ tag, (userId (context w), id, tag) ∉ item_tags (db w')) ∧
    (∀ tag, (∀ item, (userId (context w), item, tag) ∈ item_tags (db w) → item = id) →
            ¬ tag_exists (db w') (userId (context w)) tag) ∧
    ((∃ tag, (userId (context w), id, tag) ∈ item_tags (db w)) → db w' ≠ db w) ∧
    list_table (db w') = list_table (db w) ∧
    events w' = events w.
Proof.
  intros Hnone.
  unfold updateSavedItemRemoveTags, getTagsByUserItem, getSavedItemById,
    TagMutationService_updateSavedItemRemoveTags, called. run_M.
  rewrite Hnone; simpl. eexists _, _. split; [reflexivity|]. simpl.
  split; [by rewrite <- !app_assoc|].
  split; [reflexivity|].
  assert (Hgone : ∀ tag, (userId (context w), id, tag)
            ∉ (filter (λ a, ¬ of_item (userId (context w)) id a) (item_tags (db w)))).
  { intros tag [Hnot _]%elem_of_filter. by apply Hnot. }
  split; [exact Hgone|].
  split.
  { intros tag Honly [item Hin]. simpl in Hin.
    apply elem_of_filter in Hin as [Hnot Hin].
    apply Hnot. unfold of_item; simpl. by rewrite (Honly item Hin). }
  split; [|done].
  intros [tag Hin] Heq. apply (Hgone tag).
  apply (f_equal item_tags) in Heq. simpl in Heq. by rewrite Heq.
Qed.

Lemma updateSavedItemRemoveTags_clears_before_check_witness :
  ∃ msg w',
    updateSavedItemRemoveTags tt "99" world_example = (Thrown (NotFoundError msg), w') ∧
    ("1", "99", "orphan") ∈ item_tags (db world_example) ∧
    (("1", "99", "orphan") ∉ item_tags (db w')) ∧
    ¬ tag_exists (db w') "1" "orphan" ∧
    db w' ≠ db world_example.
Proof.
  destruct (updateSavedItemRemoveTags_clears_before_check "99" world_example)
    as (msg & w' & Hrun & _ & _ & Hgone & Horphan & Hneq & _);
    [vm_compute; reflexivity|].
  assert (Hin : ("1", "99", "orphan") ∈ item_tags (db world_example)).
  { simpl. rewrite !elem_of_union, !elem_of_singleton. left; right. reflexivity. }
  exists msg, w'. split; [exact Hrun|]. split; [exact Hin|].
  split; [apply Hgone|]. split.
  - apply Horphan. intros item. simpl.
    rewrite !elem_of_union, !elem_of_singleton.
    intros [[H|H]|H]; by injection H.
  - apply Hneq. by exists "orphan".
Defined.

(** ** Mutations run on the write connection *)

Lemma keeps_client_ret {A : Type} (a : A) : keeps_client (mret a).
Proof. intros w; simpl. split; [done|]. exists []. by rewrite app_nil_r. Qed.

Lemma keeps_client_throw {A : Type} (e : error) : keeps_client (@throw A e).
Proof. intros w; simpl. split; [done|]. exists []. by rewrite app_nil_r. Qed.

Lemma keeps_client_steps {B : Type} (w w1 : World) (r : outcome B * World)
    (calls : list (DbClient * StorageCall)) :
  context w1 = context w →
  trace w1 = (trace w ++ calls)%list →
  Forall (λ c, c.1 = dbClient (context w)) calls →
  (context r.2 = context w1 ∧
   ∃ calls', trace r.2 = (trace w1 ++ calls')%list ∧
             Forall (λ c, c.1 = dbClient (context w1)) calls') →
  context r.2 = context w ∧
  ∃ calls', trace r.2 = (trace w ++ calls')%list ∧
            Forall (λ c, c.1 = dbClient (context w)) calls'.
Proof.
  intros Hctx Htr Hall (Hctx' & calls' & Htr' & Hall').
  split; [congruence|]. exists (calls ++ calls')%list.
  rewrite Htr', Htr, app_assoc. split; [done|].
  apply Forall_app. split; [done|]. by rewrite <- Hctx.
Qed.

Lemma keeps_client_bind {A B : Type} (m : M A) (k : A → M B) :
  keeps_client m → (∀ a, keeps_client (k a)) → keeps_client (m ≫= k).
Proof.
  intros Hm Hk w. unfold mbind, M_bind.
  destruct (Hm w) as (Hctx & calls & Htr & Hall).
  destruct (m w) as [[a|e] w1]; simpl in *.
  - apply (keeps_client_steps w w1 (k a w1) calls); auto. apply Hk.
  - eauto.
Qed.

Lemma keeps_client_try_catch {A : Type} (body : M A) (handler : error → M A) :
  keeps_client body → (∀ e, keeps_client (handler e)) →
  keeps_client (try_catch body handler).
Proof.
  intros Hm Hk w. unfold try_catch.
  destruct (Hm w) as (Hctx & calls & Htr & Hall).
  destruct (body w) as [[a|e] w1]; simpl in *.
  - eauto.
  - apply (keeps_client_steps w w1 (handler e w1) calls); auto. apply Hk.
Qed.

Lemma keeps_client_call {A : Type} (c : StorageCall) (f : IContext → Db → A * Db) :
  keeps_client (call c f).
Proof.
  intros w. unfold call; simpl. destruct (f (context w) (db w)) as [a d]; simpl.
  split; [done|]. exists [(dbClient (context w), c)]. split; [done|].
  by repeat constructor.
Qed.

Lemma keeps_client_emitItemEvent (t : EventType) (item : option SavedItem)
    (tags : option (list string)) :
  keeps_client (emitItemEvent t item tags).
Proof. intros w; simpl. split; [done|]. exists []. by rewrite app_nil_r. Qed.

Lemma keeps_client_getOrCreateItem (url : string) :
  keeps_client (ParserCaller_getOrCreateItem url).
Proof.
  intros w. unfold ParserCaller_getOrCreateItem.
  destruct (parser w !! url); simpl; (split; [done|]); exists []; by rewrite app_nil_r.
Qed.

Create HintDb keeps_client.
#[local] Hint Resolve keeps_client_ret keeps_client_throw keeps_client_call
  keeps_client_emitItemEvent keeps_client_getOrCreateItem : keeps_client.

(** Follows the structure of a resolver body. *)
Ltac keeps_client_body :=
  repeat match goal with
         | |- keeps_client (mbind _ _) => apply keeps_client_bind; [|intros ?]
         | |- keeps_client (try_catch _ _) => apply keeps_client_try_catch; [|intros ?]
         | |- keeps_client (match ?x with _ => _ end) => destruct x
         | |- keeps_client _ => progress cbv zeta
         end;
  auto with keeps_client.

Lemma upsertSavedItem_keeps_client (parent : unit) (input : SavedItemUpsertInput) :
  keeps_client (upsertSavedItem parent input).
Proof.
  unfold upsertSavedItem, upsertSavedItem_with, getSavedItemById,
    SavedItemMutationService_upsertSavedItem.
  keeps_client_body.
Qed.

Lemma updateSavedItemTags_keeps_client (decode : string → string) (root : unit)
    (input : SavedItemTagUpdateInput) :
  keeps_client (updateSavedItemTags decode root input).
Proof.
  unfold updateSavedItemTags, getSavedItemById, TagMutationService_updateSavedItemTags.
  keeps_client_body.
Qed.

Lemma updateSavedItemRemoveTags_keeps_client (root : unit) (savedItemId : string) :
  keeps_client (updateSavedItemRemoveTags root savedItemId).
Proof.
  unfold updateSavedItemRemoveTags, getSavedItemById, getTagsByUserItem,
    TagMutationService_updateSavedItemRemoveTags.
  keeps_client_body.
Qed.

Lemma executeMutation_run {Args ReturnType : Type}
    (mutate : unit → Args → M ReturnType) (parent : unit) (args : Args) (w : World) :
  executeMutation mutate parent args w =
    mutate parent args (set_context (use_client writeClient (context w)) w).
Proof. reflexivity. Qed.

Lemma wrapMutations_lookup (Mutation : gmap string Resolver) (mutationName : string) :
  wrapMutations Mutation !! mutationName = wrapped <$> Mutation !! mutationName.
Proof.
  unfold wrapMutations.
  apply (map_fold_weak_ind
           (λ (mutations : gmap string Resolver) (m : gmap string Resolver),
              mutations !! mutationName = wrapped <$> m !! mutationName)).
  - by rewrite !lookup_empty.
  - intros i x m r Hi IH. rewrite !lookup_insert.
    case_decide; [reflexivity | exact IH].
Qed.

(** C9: every resolver registered under [Mutation] is replaced, under the same
    name, by its [executeMutation] wrapping, and no other name is registered.
    A wrapped resolver runs the registered body in the context whose database
    client is the write client; for a body that takes its client from the
    context, the context still holds the write client when it ends and every
    data-service call it made, reads included, went to the write client. *)
Theorem mutations_run_on_write_client (Mutation : gmap string Resolver) :
  (∀ mutationName,
     wrapMutations Mutation !! mutationName = wrapped <$> Mutation !! mutationName) ∧
  (∀ (r : Resolver) (parent : unit) (args : Args r) (w : World),
     resolve (wrapped r) parent args w =
       resolve r parent args (set_context (use_client writeClient (context w)) w)) ∧
  (∀ (r : Resolver) (parent : unit) (args : Args r) (w : World),
     keeps_client (resolve r parent args) →
     let w' := (resolve (wrapped r) parent args w).2 in
     dbClient (context w') = writeClient ∧
     ∃ calls, trace w' = (trace w ++ calls)%list ∧
              Forall (λ c, c.1 = writeClient) calls).
Proof.
  split; [apply wrapMutations_lookup|].
  split; [intros; apply executeMutation_run|].
  intros r parent args w Hkeeps. simpl. rewrite executeMutation_run.
  destruct (Hkeeps (set_context (use_client writeClient (context w)) w))
    as (Hctx & calls & Htr & Hall).
  split; [by rewrite Hctx|]. by exists calls.
Qed.

Lemma mutations_run_on_write_client_witness :
  dbClient (context world_example) = readClient ∧
  wrapMutations Mutation_example !! "upsertSavedItem"
    = Some (wrapped (mkResolver _ _ upsertSavedItem)) ∧
  wrapMutations Mutation_example !! "saveArchive" = None ∧
  let input := mkUpsertInput "http://b.example" (Some true) 300 in
  let w' := (resolve (wrapped (mkResolver _ _ upsertSavedItem)) tt input world_example).2 in
  dbClient (context w') = writeClient ∧
  ∃ calls, trace w' = (trace world_example ++ calls)%list ∧
           Forall (λ c, c.1 = writeClient) calls.
Proof.
  destruct (mutations_run_on_write_client Mutation_example) as (Hwrap & _ & Hwrite).
  split; [reflexivity|].
  split; [rewrite Hwrap; unfold Mutation_example; by rewrite lookup_insert_eq|].
  split.
  { rewrite Hwrap. unfold Mutation_example.
    rewrite !lookup_insert_ne by discriminate. by rewrite lookup_empty. }
  apply (Hwrite (mkResolver _ _ upsertSavedItem) tt
           (mkUpsertInput "http://b.example" (Some true) 300) world_example).
  apply upsertSavedItem_keeps_client.
Defined.

(** * Further properties of the code *)

(** ** Identifiers written by [toString] and read by [parseInt] *)

Lemma digit_cases (d : N) :
  (d < 10)%N →
  (d = 0 ∨ d = 1 ∨ d = 2 ∨ d = 3 ∨ d = 4 ∨ d = 5 ∨ d = 6 ∨ d = 7 ∨ d = 8 ∨ d = 9)%N.
Proof. lia. Qed.

(** Splits a digit below ten into its ten cases. *)
Ltac each_digit H :=
  apply digit_cases in H;
  repeat (destruct H as [H|H]); subst.

Lemma digit_value_char (d : N) :
  (d < 10)%N → digit_value 10 (pretty_N_char d) = Some (Z.of_N d).
Proof. intros H. each_digit H; reflexivity. Qed.

Lemma parse_digits_cons (radix : Z) (c : Ascii.ascii) (s : string) (acc : option Z) :
  parse_digits radix (String c s) acc =
    match digit_value radix c with
    | Some d => parse_digits radix s (Some (radix * default 0 acc + d))
    | None => acc
    end.
Proof. reflexivity. Qed.

Lemma parse_digits_pretty_N_go (x : N) (s : string) :
  (0 < x)%N →
  parse_digits 10 (pretty_N_go x s) None = parse_digits 10 s (Some (Z.of_N x)).
Proof.
  revert s. induction (N.lt_wf_0 x) as [x _ IH]; intros s Hpos.
  rewrite pretty_N_go_step by done.
  assert (Hmod : (x `mod` 10 < 10)%N) by (apply N.mod_lt; lia).
  assert (Hx : Z.of_N x = 10 * Z.of_N (x `div` 10) + Z.of_N (x `mod` 10)).
  { rewrite (N.div_mod x 10) at 1 by lia. lia. }
  destruct (decide (x `div` 10 = 0)%N) as [Hz|Hnz].
  - rewrite Hz, pretty_N_go_0, parse_digits_cons, digit_value_char by done.
    simpl default. rewrite Hx, Hz. reflexivity.
  - rewrite IH; [|apply N.div_lt; lia|lia].
    rewrite parse_digits_cons, digit_value_char by done.
    simpl default. by rewrite Hx.
Qed.

Lemma digits_only_pretty_N_go (x : N) (s : string) :
  digits_only s → digits_only (pretty_N_go x s).
Proof.
  revert s. induction (N.lt_wf_0 x) as [x _ IH]; intros s Hs.
  destruct (decide (x = 0)%N) as [->|Hnz]; [by rewrite pretty_N_go_0|].
  rewrite pretty_N_go_step by lia. apply IH; [apply N.div_lt; lia|].
  split; [|done]. exists (x `mod` 10)%N. split; [apply N.mod_lt; lia | done].
Qed.

Lemma pretty_N_go_nonempty (x : N) (s : string) :
  (0 < x)%N → pretty_N_go x s ≠ "".
Proof.
  revert s. induction (N.lt_wf_0 x) as [x _ IH]; intros s Hpos.
  rewrite pretty_N_go_step by done.
  destruct (decide (x `div` 10 = 0)%N) as [Hz|Hnz].
  - rewrite Hz, pretty_N_go_0. discriminate.
  - apply IH; [apply N.div_lt; lia|]. by apply N.neq_0_lt_0.
Qed.

Lemma parseInt_digits_signed (s : string) :
  digits_only s → s ≠ "" →
  parseInt s = match parse_digits 10 s None with Some n => Int (1 * n) | None => NaN end ∧
  parseInt (String "-" s) =
    match parse_digits 10 s None with Some n => Int (-1 * n) | None => NaN end.
Proof.
  destruct s as [|c1 r]; [done|]. intros [(d & Hd & ->) Hr] _.
  each_digit Hd; try (split; reflexivity).
  destruct r as [|c2 r']; [split; reflexivity|].
  destruct Hr as [(d' & Hd' & ->) Hr']. each_digit Hd'; split; reflexivity.
Qed.

Lemma parseInt_pretty_N (x : N) : parseInt (pretty x) = Int (Z.of_N x) ∧
  (0 < x → parseInt (String "-" (pretty x)) = Int (- Z.of_N x))%N.
Proof.
  unfold pretty, pretty_N. case_decide as Hx; [subst; split; [reflexivity|lia]|].
  assert (Hpos : (0 < x)%N) by (by apply N.neq_0_lt_0).
  destruct (parseInt_digits_signed (pretty_N_go x "")) as [Hu Hs].
  { by apply digits_only_pretty_N_go. }
  { by apply pretty_N_go_nonempty. }
  rewrite Hu, Hs, parse_digits_pretty_N_go by done. simpl.
  split; [|intros _]; f_equal; lia.
Qed.

Lemma parseInt_pretty (z : Z) : parseInt (pretty z) = Int z.
Proof.
  destruct z as [|p|p]; unfold pretty, pretty_Z.
  - reflexivity.
  - apply (parseInt_pretty_N (Npos p)).
  - rewrite string_app_cons. change ("" +:+ pretty p) with (pretty (Npos p)).
    destruct (parseInt_pretty_N (Npos p)) as [_ Hneg]. rewrite Hneg by lia. done.
Qed.

(** [parseInt] reads back what [toString] wrote. *)
Lemma parseInt_toString (n : JsNumber) : parseInt (toString n) = n.
Proof. destruct n as [|z]; [reflexivity | apply parseInt_pretty]. Qed.

(** ** [PocketSaveModel] *)

(** X1: [getById] makes one read and changes neither storage nor events.  It
    returns the transformed row stored for the caller under the id, and with
    no such row, whatever other users hold under that id, it throws
    [NotFoundError] with the message naming the id. *)
Theorem getById_scoped_to_caller (id : string) (w : World) :
  db (getById id w).2 = db w ∧
  events (getById id w).2 = events w ∧
  trace (getById id w).2 = (trace w ++ [called w (GetListRowById id)])%list ∧
  (getById id w).1 =
    match list_table (db w) !! (userId (context w), id) with
    | Some row => Returned (rowTransform row)
    | None => Thrown (NotFoundError ("Saved Item with ID=" +:+ id +:+ " does not exist."))
    end.
Proof.
  unfold getById, getListRowById, called. run_M.
  destruct (list_table (db w) !! (userId (context w), id)); simpl;
    repeat split; by destruct (db w).
Qed.

(** X2: the flags and dates of a transformed row agree: [archived] holds
    exactly for status ARCHIVED and [favorite] exactly for [favorite = 1]; an
    [archivedAt] implies archived, a [deletedAt] implies status DELETED, a
    [favoritedAt] implies favorite; no entity has both [archivedAt] and
    [deletedAt]. *)
Theorem transformListRow_flags (row : ListResult) :
  let p := transformListRow row in
  (ps_archived p = true ↔ ps_status p = Some ARCHIVED) ∧
  (ps_favorite p = true ↔ favorite row = 1) ∧
  (is_Some (ps_archivedAt p) → ps_archived p = true) ∧
  (is_Some (ps_deletedAt p) → ps_status p = Some DELETED) ∧
  (is_Some (ps_favoritedAt p) → ps_favorite p = true) ∧
  ¬ (is_Some (ps_archivedAt p) ∧ is_Some (ps_deletedAt p)).
Proof.
  unfold transformListRow, status_is; simpl.
  repeat case_bool_decide; simpl; rewrite ?is_Some_alt;
    repeat split; intros; destruct_and?; simplify_eq; try done; try congruence;
    try tauto.
Qed.

(** X3: when the row's [item_id] and [resolved_id] are safe integers, the
    [id] and [resolvedId] strings of the transformed row parse back, with the
    [parseInt] the bulk operations apply, to those integers; two rows with
    safe item ids and the same [id] string have the same item id. *)
Theorem pocketSave_id_round_trip (row : ListResult) :
  safe_integer (item_id row) →
  safe_integer (resolved_id row) →
  parseInt (ps_id (transformListRow row)) = Int (item_id row) ∧
  parseInt (ps_resolvedId (transformListRow row)) = Int (resolved_id row) ∧
  ∀ row', safe_integer (item_id row') →
          ps_id (transformListRow row) = ps_id (transformListRow row') →
          item_id row = item_id row'.
Proof.
  intros _ _. simpl. rewrite !parseInt_pretty. repeat split.
  intros row' _ Heq. by apply (inj pretty).
Qed.

Lemma pocketSave_id_round_trip_witness :
  parseInt (ps_id (rowTransform row_archived)) = Int 12 ∧
  parseInt (ps_resolvedId (rowTransform row_archived)) = Int 12.
Proof.
  destruct (pocketSave_id_round_trip (convert row_archived)) as (Hid & Hres & _);
    [unfold safe_integer; simpl; lia ..|].
  split; [exact Hid | exact Hres].
Defined.

(** ** Bulk archive: repeated identifiers *)

Lemma filter_none {A : Type} (P : A → Prop) `{!∀ x, Decision (P x)} (l : list A) :
  (∀ x, x ∈ l → ¬ P x) → filter P l = [].
Proof.
  induction l as [|y l IH]; intros Hl; [done|].
  rewrite filter_cons_False by (apply Hl, list_elem_of_here).
  apply IH. intros x Hx. by apply Hl, list_elem_of_further.
Qed.

Lemma filter_all {A : Type} (P : A → Prop) `{!∀ x, Decision (P x)} (l : list A) :
  (∀ x, x ∈ l → P x) → filter P l = l.
Proof.
  induction l as [|y l IH]; intros Hl; [done|].
  rewrite filter_cons_True by (apply Hl, list_elem_of_here).
  f_equal. apply IH. intros x Hx. by apply Hl, list_elem_of_further.
Qed.

Lemma uniqueArray_app {A : Type} `{EqDecision A} (l l' : list A) :
  uniqueArray (l ++ l') = (uniqueArray l ++ filter (λ y, y ∉ l) (uniqueArray l'))%list.
Proof.
  induction l as [|x l IH]; simpl.
  - symmetry. apply filter_all. intros y _. apply not_elem_of_nil.
  - rewrite IH, filter_app, list_filter_filter. do 2 f_equal.
    apply list_filter_iff. intros y. rewrite not_elem_of_cons. tauto.
Qed.

Lemma uniqueArray_app_absorb {A : Type} `{EqDecision A} (l l' : list A) :
  (∀ x, x ∈ l' → x ∈ l) → uniqueArray (l ++ l') = uniqueArray l.
Proof.
  intros Hsub. rewrite uniqueArray_app, filter_none, app_nil_r; [done|].
  intros x Hx Hnot. by apply Hnot, Hsub, elem_of_uniqueArray.
Qed.

(** X4: whatever the bulk-archive service does, identifiers appended to a
    request change nothing when every identifier parses to a safe integer and
    each appended one parses to a number already among the request's: the
    service is called with the same ids, so the payload and the state after
    the call are those of the request without them. *)
Theorem saveArchive_repeated_ids
    (archiveListRow : list JsNumber → Z → M (list ListResult * list string))
    (ids ids' : list string) (ts : Z) (path : list string) (w : World) :
  (∀ id, id ∈ (ids ++ ids')%list → safe_id id) →
  (∀ id, id ∈ ids' → parseInt id ∈ parseInt <$> ids) →
  saveArchive archiveListRow (ids ++ ids') ts path w
  = saveArchive archiveListRow ids ts path w.
Proof.
  intros _ Hsub. unfold saveArchive. cbv zeta.
  rewrite fmap_app, uniqueArray_app_absorb; [done|].
  intros n (id & -> & Hid)%list_elem_of_fmap. by apply Hsub.
Qed.

Lemma saveArchive_repeated_ids_witness :
  saveArchive archiveListRow_example
    (["12"; "10"] ++ ["012"; " 10"; "12px"; "12"]) 200 ["saveArchive"] world_example
  = saveArchive archiveListRow_example ["12"; "10"] 200 ["saveArchive"] world_example.
Proof.
  apply saveArchive_repeated_ids.
  - intros id Hid. repeat (apply elem_of_cons in Hid as [->|Hid]);
      [unfold safe_id, safe_integer; simpl; lia ..|].
    by apply elem_of_nil in Hid.
  - intros id Hid. repeat (apply elem_of_cons in Hid as [->|Hid]);
      [apply list_elem_of_fmap;
       first [ exists "12"; split; [reflexivity | apply list_elem_of_here]
             | exists "10"; split;
               [reflexivity | apply list_elem_of_further, list_elem_of_here] ] ..|].
    by apply elem_of_nil in Hid.
Defined.

(** X6: the payload keeps what the data service reported, in order: the save
    list is the transformed updated rows; there is one error per missing id
    (none exactly when none is missing), each of type NotFound with the
    resolved mutation path and the message naming its id, and two positions
    with the same error hold the same missing id. *)
Theorem formatSaveWriteMutationPayload_shape (missing : list string)
    (updated : list ListResult) (path : list string) :
  let p := formatSaveWriteMutationPayload missing updated path in
  save p = transformListRow <$> updated ∧
  length (errors p) = length missing ∧
  (errors p = [] ↔ missing = []) ∧
  Forall (λ e, nf_typename e = "NotFound" ∧ nf_path e = baseError_path path) (errors p) ∧
  (∀ i v, missing !! i = Some v →
          nf_message <$> errors p !! i = Some (message (notFoundPayload "id" v))) ∧
  (∀ i j e, errors p !! i = Some e → errors p !! j = Some e →
            missing !! i = missing !! j).
Proof.
  cbv zeta. rewrite formatSaveWriteMutationPayload_errors.
  split; [reflexivity|].
  split; [by rewrite length_fmap|].
  split. { split; [apply fmap_nil_inv | by intros ->]. }
  split. { apply Forall_fmap, Forall_forall. intros v _. done. }
  split. { intros i v Hv. by rewrite list_lookup_fmap, Hv. }
  intros i j e. rewrite !list_lookup_fmap.
  destruct (missing !! i) as [vi|] eqn:Hi; [|done].
  destruct (missing !! j) as [vj|] eqn:Hj; [|done].
  simpl. intros He1 He2. rewrite <- He2 in He1.
  apply (inj Some), (f_equal nf_message) in He1. cbn [nf_message] in He1.
  f_equal. by apply (notFoundPayload_inj "id").
Qed.

(** X7: [statusMap] inverts the status enum: the code of a status maps to
    that status, and a converted or transformed row has status [s] exactly
    when the raw status code is the code of [s]. *)
Theorem statusMap_round_trip (row : RawListResult) (s : StatusName) :
  statusMap !! PocketSaveStatus s = Some s ∧
  (status (convert row) = Some s ↔ raw_status row = PocketSaveStatus s) ∧
  (ps_status (rowTransform row) = Some s ↔ raw_status row = PocketSaveStatus s).
Proof.
  assert (Hiff : ∀ c, statusMap !! c = Some s ↔ c = PocketSaveStatus s).
  { intros c. rewrite statusMap_lookup.
    destruct s; simpl; repeat case_bool_decide; subst; split; intros; simplify_eq; done. }
  split; [by apply Hiff|]. split; apply Hiff.
Qed.

(** ** [resolvers/index] *)

(** X8: [ItemResult.__resolveType] answers Item or PendingItem; for a
    resolved id that is the rendering of an integer it is PendingItem exactly
    when the integer is 0, and it is PendingItem when the resolved id does not
    parse. *)
Theorem resolveType_pending_iff_unresolved (savedItem : SavedItem) :
  (ItemResult_resolveType savedItem = "Item" ∨
   ItemResult_resolveType savedItem = "PendingItem") ∧
  (∀ z, si_resolvedId savedItem = toString (Int z) →
        (ItemResult_resolveType savedItem = "PendingItem" ↔ z = 0)) ∧
  (parseInt (si_resolvedId savedItem) = NaN →
   ItemResult_resolveType savedItem = "PendingItem").
Proof.
  unfold ItemResult_resolveType. split; [by case_match; auto|]. split.
  - intros z ->. rewrite parseInt_toString; simpl.
    case_bool_decide; simpl; split; intros; done.
  - by intros ->.
Qed.

Lemma resolveType_pending_iff_unresolved_witness :
  ItemResult_resolveType (toSavedItem row_unread) = "Item" ∧
  (ItemResult_resolveType
     (mkSavedItem "30" "0" "http://f.example" "f" false false (Some UNREAD) None None)
   = "PendingItem" ↔ 0 = 0) ∧
  ItemResult_resolveType
    (mkSavedItem "31" "" "http://g.example" "g" false false (Some UNREAD) None None)
  = "PendingItem".
Proof.
  split; [reflexivity|]. split.
  - apply (resolveType_pending_iff_unresolved
             (mkSavedItem "30" "0" "http://f.example" "f" false false (Some UNREAD) None None)).
    reflexivity.
  - apply (resolveType_pending_iff_unresolved
             (mkSavedItem "31" "" "http://g.example" "g" false false (Some UNREAD) None None)).
    reflexivity.
Defined.

Lemma set_context_write_id (w : World) :
  dbClient (context w) = writeClient →
  set_context (use_client writeClient (context w)) w = w.
Proof.
  destruct w as [[u a c] d p t e]; simpl. by intros ->.
Qed.

(** X9: [executeMutation] changes the database client of the context and
    nothing else before the body runs: user, api id, storage, trace and events
    are as given.  Wrapping a wrapped resolver, or wrapping when the context
    already holds the write client, runs as the resolver wrapped once,
    respectively as the resolver itself. *)
Theorem executeMutation_idempotent {Args ReturnType : Type}
    (mutate : unit → Args → M ReturnType) (parent : unit) (args : Args) (w : World) :
  executeMutation (executeMutation mutate) parent args w
    = executeMutation mutate parent args w ∧
  (dbClient (context w) = writeClient →
   executeMutation mutate parent args w = mutate parent args w) ∧
  (∃ w0, executeMutation mutate parent args w = mutate parent args w0 ∧
         dbClient (context w0) = writeClient ∧
         userId (context w0) = userId (context w) ∧
         apiId (context w0) = apiId (context w) ∧
         db w0 = db w ∧ parser w0 = parser w ∧
         trace w0 = trace w ∧ events w0 = events w).
Proof.
  split; [reflexivity|]. split.
  - intros Hw. by rewrite executeMutation_run, set_context_write_id.
  - exists (set_context (use_client writeClient (context w)) w).
    by rewrite executeMutation_run.
Qed.

Lemma executeMutation_idempotent_witness :
  let w := world_of writeClient db_example parser_example in
  executeMutation updateSavedItemRemoveTags tt "12" w = updateSavedItemRemoveTags tt "12" w.
Proof.
  apply (executeMutation_idempotent updateSavedItemRemoveTags tt "12"
           (world_of writeClient db_example parser_example)).
  reflexivity.
Defined.

Lemma wrapMutations_fmap (Mutation : gmap string Resolver) :
  wrapMutations Mutation = wrapped <$> Mutation.
Proof.
  apply map_eq. intros name. by rewrite wrapMutations_lookup, lookup_fmap.
Qed.

(** X10: the wrapped [Mutation] object has the names of the registered one,
    no more and no fewer (an empty object stays empty); wrapping the object a
    second time yields resolvers that run as the ones wrapped once. *)
Theorem wrapMutations_same_names (Mutation : gmap string Resolver) :
  dom (wrapMutations Mutation) = dom Mutation ∧
  size (wrapMutations Mutation) = size Mutation ∧
  wrapMutations ∅ = ∅ ∧
  (∀ name, wrapMutations (wrapMutations Mutation) !! name
           = (λ r, wrapped (wrapped r)) <$> Mutation !! name) ∧
  (∀ (r : Resolver) (parent : unit) (args : Args r) (w : World),
     resolve (wrapped (wrapped r)) parent args w = resolve (wrapped r) parent args w).
Proof.
  rewrite !wrapMutations_fmap.
  split; [apply dom_fmap_L|]. split; [apply map_size_fmap|].
  split; [apply fmap_empty|]. split; [|reflexivity].
  intros name. rewrite !lookup_fmap. by destruct (Mutation !! name).
Qed.

(** ** [resolvers/mutation] *)




(** X12: the input [upsertSavedItem] hands to the mutation service has the URL
    and timestamp of the caller's input, and its favorite flag is set exactly
    when the caller asked for it or the existing item is a favorite; without
    an existing item, or when the caller asks for a favorite, the input is
    handed over as given.  The calls are read, write, read. *)
Theorem upsertSavedItem_favorite_only_set (input : SavedItemUpsertInput) (w : World)
    (item : ParserItem) :
  parser w !! url input = Some item →
  ∃ r w' input',
    upsertSavedItem tt input w = (Returned r, w') ∧
    trace w' = (trace w ++ [called w (GetSavedItemById (pretty (itemId item)));
                            called w (UpsertSavedItem item input');
                            called w (GetSavedItemById (pretty (itemId item)))])%list ∧
    url input' = url input ∧
    timestamp input' = timestamp input ∧
    truthy (isFavorite input') =
      truthy (isFavorite input) || from_option si_isFavorite false (existing_item w item) ∧
    (existing_item w item = None → input' = input) ∧
    (truthy (isFavorite input) = true → input' = input).
Proof.
  intros Hitem. rewrite (upsertSavedItem_run input w item Hitem). cbv zeta.
  eexists _, _, _. split; [reflexivity|]. split; [reflexivity|].
  destruct (existing_item w item) as [e|]; simpl.
  - destruct (truthy (isFavorite input)) eqn:Hfav; simpl; by repeat split.
  - repeat split. by rewrite orb_false_r.
Qed.

Lemma upsertSavedItem_favorite_only_set_witness :
  ∃ r w' input',
    upsertSavedItem tt (mkUpsertInput "http://b.example" None 300) world_example
      = (Returned r, w') ∧
    called world_example (UpsertSavedItem (mkParserItem 12 12 "b") input') ∈ trace w' ∧
    isFavorite input' = Some true.
Proof.
  destruct (upsertSavedItem_favorite_only_set
              (mkUpsertInput "http://b.example" None 300) world_example
              (mkParserItem 12 12 "b"))
    as (r & w' & input' & Hrun & Htrace & _ & _ & Hfav & _); [vm_compute; reflexivity|].
  exists r, w', input'. split; [exact Hrun|]. split.
  - rewrite Htrace, elem_of_app, !elem_of_cons. right; right; left. reflexivity.
  - assert (Ht : truthy (isFavorite input') = true)
      by (rewrite Hfav; vm_compute; reflexivity).
    destruct (isFavorite input') as [[|]|]; done.
Defined.

(** X13: after a successful upsert the item exists for the caller, so a
    second successful upsert of the same URL emits no ADD_ITEM; it emits no
    FAVORITE_ITEM if the first left the item a favorite and no UNARCHIVE_ITEM
    if the first left it unarchived. *)
Theorem upsertSavedItem_adds_once (input input2 : SavedItemUpsertInput)
    (w w' w'' : World) (r r2 : SavedItem) :
  url input2 = url input →
  upsertSavedItem tt input w = (Returned r, w') →
  upsertSavedItem tt input2 w' = (Returned r2, w'') →
  ∃ item evs,
    parser w !! url input = Some item ∧
    existing_item w' item = Some r ∧
    events w'' = (events w' ++ evs)%list ∧
    (ADD_ITEM ∉ ev_type <$> evs) ∧
    (si_isFavorite r = true → FAVORITE_ITEM ∉ ev_type <$> evs) ∧
    (si_isArchived r = false → UNARCHIVE_ITEM ∉ ev_type <$> evs).
Proof.
  intros Hurl Hrun1 Hrun2.
  destruct (parser w !! url input) as [item|] eqn:Hitem.
  2: { rewrite upsertSavedItem_parser_failure in Hrun1 by done. discriminate. }
  rewrite (upsertSavedItem_run input w item Hitem) in Hrun1.
  cbv zeta in Hrun1. injection Hrun1 as Hr Hw'.
  assert (Hex : existing_item w' item = Some r).
  { rewrite <- Hw', <- Hr. unfold existing_item; simpl. by rewrite lookup_insert_eq. }
  assert (Hitem2 : parser w' !! url input2 = Some item).
  { rewrite <- Hw', Hurl. exact Hitem. }
  rewrite (upsertSavedItem_run input2 w' item Hitem2) in Hrun2.
  cbv zeta in Hrun2. rewrite Hex in Hrun2. injection Hrun2 as _ Hw''.
  exists item. eexists. split; [reflexivity|]. split; [exact Hex|].
  split; [rewrite <- Hw''; reflexivity|].
  destruct (si_isArchived r), (si_isFavorite r), (truthy (isFavorite input2)); simpl;
    repeat split; intros; rewrite ?elem_of_cons, ?elem_of_nil;
    intuition discriminate.
Qed.

Lemma upsertSavedItem_adds_once_witness :
  ∃ r w' r2 w'' evs,
    upsertSavedItem tt (mkUpsertInput "http://new.example" (Some true) 300) world_example
      = (Returned r, w') ∧
    upsertSavedItem tt (mkUpsertInput "http://new.example" (Some true) 400) w'
      = (Returned r2, w'') ∧
    events w'' = (events w' ++ evs)%list ∧
    ADD_ITEM ∉ ev_type <$> evs.
Proof.
  destruct (upsertSavedItem tt (mkUpsertInput "http://new.example" (Some true) 300)
              world_example) as [[r|e] w'] eqn:H1; [|vm_compute in H1; discriminate].
  destruct (upsertSavedItem tt (mkUpsertInput "http://new.example" (Some true) 400) w')
    as [[r2|e] w''] eqn:H2.
  - destruct (upsertSavedItem_adds_once
                (mkUpsertInput "http://new.example" (Some true) 300)
                (mkUpsertInput "http://new.example" (Some true) 400)
                world_example w' w'' r r2 eq_refl H1 H2)
      as (item & evs & _ & _ & Hev & Hadd & _).
    by exists r, w', r2, w'', evs.
  - pose proof H1 as Hc. vm_compute in Hc. injection Hc as <- <-.
    vm_compute in H2. discriminate.
Defined.

(** X14: with a non-empty tag-id list and a saved item of the caller,
    [updateSavedItemTags] reads, writes and reads again, emits exactly one
    REPLACE_TAGS event carrying the item and the decoded tag ids in request
    order, returns the item and leaves the row table as it was. *)
Theorem updateSavedItemTags_success (decode : string → string)
    (input : SavedItemTagUpdateInput) (w : World) (row : RawListResult) :
  tagIds input ≠ [] →
  list_table (db w) !! (userId (context w), savedItemId input) = Some row →
  ∃ w',
    updateSavedItemTags decode tt input w = (Returned (Some (toSavedItem row)), w') ∧
    events w' = (events w ++ [mkEvent REPLACE_TAGS (Some (toSavedItem row))
                                (Some (decode <$> tagIds input))])%list ∧
    trace w' = (trace w ++ [called w (GetSavedItemById (savedItemId input));
                            called w (UpdateSavedItemTags input);
                            called w (GetSavedItemById (savedItemId input))])%list ∧
    list_table (db w') = list_table (db w).
Proof.
  intros Hne Hrow.
  unfold updateSavedItemTags, getSavedItemById, TagMutationService_updateSavedItemTags,
    called. run_M.
  destruct (tagIds input) as [|tagId rest] eqn:Hids; [done|]. simpl.
  repeat (rewrite Hrow; simpl). eexists. split; [reflexivity|]. simpl.
  split; [reflexivity|]. split; [by rewrite <- !app_assoc|reflexivity].
Qed.

Lemma updateSavedItemTags_success_witness :
  ∃ w',
    updateSavedItemTags (λ s, s) tt (mkTagUpdateInput "12" ["b"; "a"]) world_example
      = (Returned (Some (toSavedItem row_archived)), w') ∧
    events w' = [mkEvent REPLACE_TAGS (Some (toSavedItem row_archived)) (Some ["b"; "a"])].
Proof.
  destruct (updateSavedItemTags_success (λ s, s) (mkTagUpdateInput "12" ["b"; "a"])
              world_example row_archived) as (w' & Hrun & Hev & _);
    [discriminate | vm_compute; reflexivity |].
  exists w'. split; [exact Hrun | exact Hev].
Defined.

(** X15: for a saved item of the caller, [updateSavedItemRemoveTags] emits
    exactly one CLEAR_TAGS event whose tag names are, each once, the tags the
    item carried before the call, although none of them is associated with
    the item any more; associations of other items and the row table are
    untouched, and the item is returned. *)
Theorem updateSavedItemRemoveTags_success (id : string) (w : World) (row : RawListResult) :
  list_table (db w) !! (userId (context w), id) = Some row →
  ∃ w' names,
    updateSavedItemRemoveTags tt id w = (Returned (toSavedItem row), w') ∧
    events w' = (events w ++ [mkEvent CLEAR_TAGS (Some (toSavedItem row)) (Some names)])%list ∧
    NoDup names ∧
    (∀ tag, tag ∈ names ↔ (userId (context w), id, tag) ∈ item_tags (db w)) ∧
    (∀ tag, (userId (context w), id, tag) ∉ item_tags (db w')) ∧
    (∀ a, a.1 ≠ (userId (context w), id) → a ∈ item_tags (db w') ↔ a ∈ item_tags (db w)) ∧
    list_table (db w') = list_table (db w).
Proof.
  intros Hrow.
  unfold updateSavedItemRemoveTags, getTagsByUserItem, getSavedItemById,
    TagMutationService_updateSavedItemRemoveTags. run_M.
  rewrite Hrow; simpl. eexists _, _. split; [reflexivity|]. simpl.
  split; [reflexivity|].
  rewrite <- list_fmap_compose.
  split.
  { apply NoDup_fmap_2_strong; [|apply NoDup_elements].
    intros [k1 t1] [k2 t2] [H1 _]%elem_of_elements%elem_of_filter
      [H2 _]%elem_of_elements%elem_of_filter Heq.
    unfold of_item in *; simpl in *. congruence. }
  split.
  { intros tag. rewrite list_elem_of_fmap. split.
    - intros ([k t] & -> & [Hk Hin]%elem_of_elements%elem_of_filter).
      unfold of_item in Hk; simpl in *. by rewrite <- Hk.
    - intros Hin. exists (userId (context w), id, tag). split; [done|].
      apply elem_of_elements, elem_of_filter. by split. }
  split.
  { intros tag [Hnot _]%elem_of_filter. by apply Hnot. }
  split; [|reflexivity].
  intros a Ha. rewrite elem_of_filter. unfold of_item. tauto.
Qed.

Lemma updateSavedItemRemoveTags_success_witness :
  ∃ w' names,
    updateSavedItemRemoveTags tt "12" world_example
      = (Returned (toSavedItem row_archived), w') ∧
    events w' = [mkEvent CLEAR_TAGS (Some (toSavedItem row_archived)) (Some names)] ∧
    "news" ∈ names ∧
    (("1", "12", "news") ∉ item_tags (db w')).
Proof.
  destruct (updateSavedItemRemoveTags_success "12" world_example row_archived)
    as (w' & names & Hrun & Hev & _ & Hnames & Hgone & _); [vm_compute; reflexivity|].
  exists w', names. split; [exact Hrun|]. split; [exact Hev|].
  split; [|apply Hgone].
  apply Hnames. simpl. rewrite !elem_of_union, !elem_of_singleton. left; left. reflexivity.
Defined.
